(** * Libvirt::Secret — the Ruby binding of libvirt's virSecret objects

    A shallow embedding of [ext/libvirt/secret.c].  The file is a thin
    layer: each Ruby method converts its arguments, calls one function of
    the libvirt client library and converts the result or raises.  What the
    layer itself owns is therefore small and is modelled in full:

    - the Ruby object wrapping a [virSecretPtr] (its [DATA_PTR] and its
      [@connection] instance variable);
    - the native buffers it receives from the library and must [free];
    - the order in which it converts, dispatches, raises and releases.

    libvirt itself is an external library.  It is an interface here
    ([Libvirt]), every statement about the binding is made for an arbitrary
    implementation of it, and what a statement needs from the library is
    written as a hypothesis.  [RefLib] is one small implementation used to
    run the binding on concrete inputs. *)

From Stdlib Require Import ZArith List String Bool Lia.
From Stdlib.Strings Require Import Byte.
From stdpp Require Import base option list gmap.
Import ListNotations.

Local Open Scope string_scope.
Local Open Scope Z_scope.

(* ===================================================================== *)
(** ** C and Ruby data *)
(* ===================================================================== *)

(** [virSecretPtr] and [virConnectPtr] are non-NULL pointers to objects
    owned by the library; NULL is [None] wherever the C code can see it. *)
Definition virSecretPtr := nat.
Definition virConnectPtr := nat.

(** Address of a native ([malloc]) buffer handed over by the library. *)
Definition addr := nat.

(** The fields of libvirt's [virError] that the binding copies into the
    exception it raises. *)
Record virError := mk_virError { err_code : Z; err_message : string }.

(** Ruby exceptions the binding can let escape.  [LibvirtError] is
    [Libvirt::Error] (the spec's [RemoteError]): it records the libvirt
    function that failed and the last error libvirt holds for the
    connection the call was made on. *)
Inductive Exn :=
| ArgumentError (msg : string)
| TypeError (msg : string)
| RangeError (msg : string)
| NoMemoryError
| LibvirtError (func : string) (conn : virConnectPtr) (err : option virError).

(** Ruby values that reach this file: [nil], Integers, Strings (a byte
    sequence with an explicit length) and [T_DATA] objects, named by their
    identity. *)
Inductive VALUE :=
| Qnil
| RInteger (n : Z)
| RString (bytes : list byte)
| RData (id : nat).

(** The Ruby object built by [ruby_libvirt_secret_new]: the wrapped
    pointer, which is what [DATA_PTR(s)] reads and [free] clears, and the
    [@connection] attribute the class defines. *)
Record RSecret := mk_RSecret {
  DATA_PTR : option virSecretPtr;
  iv_connection : virConnectPtr
}.

(** One call into libvirt, with the arguments the binding passed.
    [value] is the memory behind the pointer given to [virSecretSetValue]
    and [value_size] the length given next to it. *)
Inductive LibCall :=
| CallGetUUIDString (p : virSecretPtr)
| CallGetUsageType (p : virSecretPtr)
| CallGetUsageID (p : virSecretPtr)
| CallGetXMLDesc (p : virSecretPtr) (flags : Z)
| CallSetValue (p : virSecretPtr) (value : list byte) (value_size : nat) (flags : Z)
| CallGetValue (p : virSecretPtr) (flags : Z)
| CallUndefine (p : virSecretPtr)
| CallFree (p : virSecretPtr).

(** What the binding does that is visible outside it, in program order. *)
Inductive Event :=
| ELib (c : LibCall)              (* a call into libvirt *)
| EStrNew (a : addr) (size : nat) (* a Ruby String built from a native buffer *)
| ECFree (a : addr).              (* [free]/[xfree] of a native buffer *)

(* ===================================================================== *)
(** ** The libvirt client library, as the binding sees it *)
(* ===================================================================== *)

(** The C signatures of the functions [secret.c] calls, over a state [Lib]
    that stands for the library together with the daemon behind it.
    [int] results are [Z] (negative on failure), pointer results are
    [option] ([None] is NULL).  [virSecretGetValue] returns the bytes of
    the buffer it allocated; their number is what it stores in
    [*value_size].  [virSecretSetValue] is given the memory behind its
    [value] pointer and, separately, [value_size]. *)
Class Libvirt (Lib : Type) := {
  virSecretGetUUIDString : virSecretPtr -> Lib -> (Z * list byte) * Lib;
  virSecretGetUsageType : virSecretPtr -> Lib -> Z * Lib;
  virSecretGetUsageID : virSecretPtr -> Lib -> option (list byte) * Lib;
  virSecretGetXMLDesc : virSecretPtr -> Z -> Lib -> option (list byte) * Lib;
  virSecretSetValue : virSecretPtr -> list byte -> nat -> Z -> Lib -> Z * Lib;
  virSecretGetValue : virSecretPtr -> Z -> Lib -> option (list byte) * Lib;
  virSecretUndefine : virSecretPtr -> Lib -> Z * Lib;
  virSecretFree : virSecretPtr -> Lib -> Z * Lib;
  virConnGetLastError : virConnectPtr -> Lib -> option virError
}.

(* ===================================================================== *)
(** ** State and control *)
(* ===================================================================== *)

(** Everything a call can read or change. *)
Record World (Lib : Type) := mk_World {
  lib : Lib;                      (* libvirt and the daemon *)
  objects : gmap nat RSecret;     (* the Libvirt::Secret objects of the Ruby heap *)
  cheap : gmap addr (list byte);  (* live native buffers *)
  ruby_nomem : bool;              (* Ruby's allocator is exhausted *)
  errinfo : option Exn;           (* the exception caught by rb_protect *)
  events : list Event             (* what has happened so far *)
}.
Arguments mk_World {Lib}.
Arguments lib {Lib}.
Arguments objects {Lib}.
Arguments cheap {Lib}.
Arguments ruby_nomem {Lib}.
Arguments errinfo {Lib}.
Arguments events {Lib}.

(** A C function of the extension either returns, leaves by a Ruby
    exception (a [longjmp]: the state reached so far stays), or faults. *)
Inductive Result (A : Type) :=
| Ok (a : A)
| Raise (e : Exn)
| Crash.
Arguments Ok {A}.
Arguments Raise {A}.
Arguments Crash {A}.

Definition M (Lib A : Type) := World Lib -> Result A * World Lib.

Definition ret {Lib A} (a : A) : M Lib A := fun w => (Ok a, w).

Definition bind {Lib A B} (m : M Lib A) (k : A -> M Lib B) : M Lib B :=
  fun w =>
    match m w with
    | (Ok a, w') => k a w'
    | (Raise e, w') => (Raise e, w')
    | (Crash, w') => (Crash, w')
    end.

Definition rb_raise {Lib A} (e : Exn) : M Lib A := fun w => (Raise e, w).

Declare Scope rb_scope.
Delimit Scope rb_scope with rb.
Notation "'let*' x ':=' m 'in' k" := (bind m (fun x => k))
  (at level 10, x pattern, m at level 100, k at level 200) : rb_scope.
Local Open Scope rb_scope.

Definition is_Ok {A} (r : Result A) : bool :=
  match r with Ok _ => true | _ => false end.

Definition is_Some_bool {A} (o : option A) : bool :=
  match o with Some _ => true | None => false end.

(** The spec's [RemoteError]. *)
Definition is_RemoteError {A} (r : Result A) : bool :=
  match r with Raise (LibvirtError _ _ _) => true | _ => false end.

(* ===================================================================== *)
(** ** The binding *)
(* ===================================================================== *)

Section Binding.
Context {Lib : Type} {L : Libvirt Lib}.

(** *** C runtime and Ruby C API used by [secret.c] *)

(** A call into libvirt: the library moves to its next state and the call
    is recorded. *)
Definition libcall {R : Type} (c : LibCall) (f : Lib -> R * Lib) : M Lib R :=
  fun w =>
    let '(r, l') := f (lib w) in
    (Ok r, mk_World l' (objects w) (cheap w) (ruby_nomem w) (errinfo w)
                    (events w ++ [ELib c])).

(** The buffer behind a pointer the library returned for the caller to
    free: it is live native memory at an address not in use. *)
Definition native_alloc (buf : list byte) : M Lib addr :=
  fun w =>
    let a := fresh (dom (cheap w)) in
    (Ok a, mk_World (lib w) (objects w) (<[a := buf]> (cheap w))
                    (ruby_nomem w) (errinfo w) (events w)).

(** [free(p)] / [xfree(p)]: releases a live buffer; anything else is a
    fault (double free). *)
Definition c_free (a : addr) : M Lib unit :=
  fun w =>
    match cheap w !! a with
    | Some _ =>
        (Ok tt, mk_World (lib w) (objects w) (delete a (cheap w))
                         (ruby_nomem w) (errinfo w) (events w ++ [ECFree a]))
    | None => (Crash, w)
    end.

(** The bytes of a NUL-terminated C string stored in [mem]. *)
Fixpoint c_string (mem : list byte) : list byte :=
  match mem with
  | [] => []
  | b :: rest => if Byte.eqb b x00 then [] else b :: c_string rest
  end.

(** [rb_str_new(ptr, len)]: a Ruby String holding [len] bytes copied from
    [ptr]; raises when Ruby cannot allocate; reading a released buffer is
    a fault. *)
Definition rb_str_new (a : addr) (len : nat) : M Lib VALUE :=
  fun w =>
    match cheap w !! a with
    | None => (Crash, w)
    | Some buf =>
        let w' := mk_World (lib w) (objects w) (cheap w) (ruby_nomem w)
                           (errinfo w) (events w ++ [EStrNew a len]) in
        if ruby_nomem w then (Raise NoMemoryError, w')
        else (Ok (RString (take len buf)), w')
    end.

(** [rb_str_new2(ptr)]: a Ruby String holding the C string at [ptr]. *)
Definition rb_str_new2 (mem : list byte) : M Lib VALUE :=
  fun w =>
    if ruby_nomem w then (Raise NoMemoryError, w)
    else (Ok (RString (c_string mem)), w).

(** [rb_str_new2] on a native buffer. *)
Definition rb_str_new2_at (a : addr) : M Lib VALUE :=
  fun w =>
    match cheap w !! a with
    | None => (Crash, w)
    | Some buf =>
        rb_str_new2 buf
          (mk_World (lib w) (objects w) (cheap w) (ruby_nomem w) (errinfo w)
                    (events w ++ [EStrNew a (length (c_string buf))]))
    end.

(** Ruby's [TAG_RAISE], the state [rb_protect] reports for an exception. *)
Definition TAG_RAISE : Z := 6.

(** [rb_protect(f, arg, &state)]: runs [f(arg)]; an exception raised
    inside is caught, kept as the pending exception, and reported through
    a non-zero [state] with [Qnil] as result. *)
Definition rb_protect {A : Type} (f : A -> M Lib VALUE) (arg : A)
  : M Lib (VALUE * Z) :=
  fun w =>
    match f arg w with
    | (Ok v, w') => (Ok (v, 0), w')
    | (Raise e, w') =>
        (Ok (Qnil, TAG_RAISE),
         mk_World (lib w') (objects w') (cheap w') (ruby_nomem w') (Some e)
                  (events w'))
    | (Crash, w') => (Crash, w')
    end.

(** [rb_jump_tag(state)]: continues the exception [rb_protect] caught. *)
Definition rb_jump_tag {A : Type} (state : Z) : M Lib A :=
  fun w =>
    match errinfo w with
    | Some e => (Raise e, w)
    | None => (Crash, w)
    end.

(** [rb_scan_args(argc, argv, "01", &a)]: no required and one optional
    argument; a missing optional argument is [nil]. *)
Definition rb_scan_args_01 (argv : list VALUE) : M Lib VALUE :=
  match argv with
  | [] => ret Qnil
  | [a] => ret a
  | _ => rb_raise (ArgumentError "wrong number of arguments")
  end.

(** [rb_scan_args(argc, argv, "11", &a, &b)]: one required and one
    optional argument. *)
Definition rb_scan_args_11 (argv : list VALUE) : M Lib (VALUE * VALUE) :=
  match argv with
  | [a] => ret (a, Qnil)
  | [a; b] => ret (a, b)
  | _ => rb_raise (ArgumentError "wrong number of arguments")
  end.

(** [StringValue(v)]: [v] if it is a String, else its [to_str]
    conversion; none of the other values of [VALUE] has one, which is a
    [TypeError]. *)
Definition StringValue (v : VALUE) : M Lib (list byte) :=
  match v with
  | RString bytes => ret bytes
  | _ => rb_raise (TypeError "no implicit conversion into String")
  end.

(** [RSTRING_PTR(v)]: the memory of a Ruby String, its bytes followed by
    the terminating NUL Ruby keeps after them. *)
Definition RSTRING_PTR (bytes : list byte) : list byte := bytes ++ [x00].

(** [RSTRING_LEN(v)]: the length Ruby records for the String. *)
Definition RSTRING_LEN (bytes : list byte) : nat := length bytes.

(** [INT2NUM(i)]: the Ruby Integer of a C [int]. *)
Definition INT2NUM (i : Z) : VALUE := RInteger i.

(** [Data_Get_Struct(s, virSecret, ptr)]: the object behind [s]; Ruby
    rejects a value that is not such an object. *)
Definition Data_Get_Struct (s : VALUE) : M Lib RSecret :=
  fun w =>
    match s with
    | RData id =>
        match objects w !! id with
        | Some o => (Ok o, w)
        | None => (Raise (TypeError "wrong argument type"), w)
        end
    | _ => (Raise (TypeError "wrong argument type"), w)
    end.

(** [DATA_PTR(s) = p]. *)
Definition set_DATA_PTR (s : VALUE) (p : option virSecretPtr) : M Lib unit :=
  fun w =>
    match s with
    | RData id =>
        match objects w !! id with
        | Some o =>
            (Ok tt,
             mk_World (lib w)
                      (<[id := mk_RSecret p (iv_connection o)]> (objects w))
                      (cheap w) (ruby_nomem w) (errinfo w) (events w))
        | None => (Raise (TypeError "wrong argument type"), w)
        end
    | _ => (Raise (TypeError "wrong argument type"), w)
    end.

(** *** Helpers of the extension declared in [common.h] and [connect.h] *)

(** Modelled from the spec: the macro [ruby_libvirt_get_struct] of
    [common.h] is not part of the sources at hand.  The spec has every
    operation on a released handle fail deterministically instead of
    crashing: the wrapped pointer is read, and a handle whose pointer was
    cleared by [free] is refused with an exception. *)
Definition ruby_libvirt_get_struct (s : VALUE) : M Lib virSecretPtr :=
  let* o := Data_Get_Struct s in
  match DATA_PTR o with
  | Some ptr => ret ptr
  | None => rb_raise (ArgumentError "Secret has been freed")
  end.

(** Modelled from the spec: [ruby_libvirt_connect_get] of [connect.h] is
    not part of the sources at hand.  A handle is bound to the Connection
    that owns it; this yields that connection.  Connections are opened
    and closed elsewhere ([connect.c]); here the connection of a handle is
    open. *)
Definition ruby_libvirt_connect_get (s : VALUE) : M Lib virConnectPtr :=
  let* o := Data_Get_Struct s in
  ret (iv_connection o).

(** Modelled from the spec: [ruby_libvirt_value_to_uint] of [common.h] is
    not part of the sources at hand.  [flags] is an optional bitmask with
    default 0: [nil] is 0, an Integer is converted as Ruby's [NUM2UINT]
    does (negative values down to [INT_MIN] wrap around), and anything
    else is refused. *)
Definition ruby_libvirt_value_to_uint (v : VALUE) : M Lib Z :=
  match v with
  | Qnil => ret 0
  | RInteger n =>
      if (- 2 ^ 31 <=? n) && (n <? 2 ^ 32) then ret (n mod 2 ^ 32)
      else rb_raise (RangeError "integer out of range of unsigned int")
  | _ => rb_raise (TypeError "no implicit conversion into Integer")
  end.

(** Modelled from the spec: [ruby_libvirt_raise_error_if] of [common.h]
    is not part of the sources at hand.  When the condition holds the call
    fails at once with a [RemoteError] naming the operation and carrying
    the last error libvirt holds for the given connection. *)
Definition ruby_libvirt_raise_error_if (condition : bool) (method : string)
    (conn : virConnectPtr) : M Lib unit :=
  fun w =>
    if condition
    then (Raise (LibvirtError method conn (virConnGetLastError conn (lib w))), w)
    else (Ok tt, w).

(** Modelled from the spec: the macro [ruby_libvirt_generate_uuid] of
    [common.h] is not part of the sources at hand.  The call fills a
    buffer with the UUID string; a negative result is a [RemoteError],
    otherwise the string is returned. *)
Definition ruby_libvirt_generate_uuid (func : string)
    (call : M Lib (Z * list byte)) (conn : M Lib virConnectPtr) : M Lib VALUE :=
  let* (r, uuid) := call in
  let* c := conn in
  let* _ := ruby_libvirt_raise_error_if (r <? 0) func c in
  rb_str_new2 uuid.

(** Modelled from the spec: the macro [ruby_libvirt_generate_call_int] of
    [common.h] is not part of the sources at hand.  A negative result is a
    [RemoteError], otherwise the integer is returned. *)
Definition ruby_libvirt_generate_call_int (func : string)
    (call : M Lib Z) (conn : M Lib virConnectPtr) : M Lib VALUE :=
  let* r := call in
  let* c := conn in
  let* _ := ruby_libvirt_raise_error_if (r <? 0) func c in
  ret (INT2NUM r).

(** Modelled from the spec: the macro [ruby_libvirt_generate_call_string]
    of [common.h] is not part of the sources at hand.  A NULL result is a
    [RemoteError].  Its third argument ([dealloc]) says whether the string
    is the caller's to release: if so it is released after the Ruby
    String is built, also when building it raises. *)
Definition ruby_libvirt_generate_call_string (func : string)
    (call : M Lib (option (list byte))) (conn : M Lib virConnectPtr)
    (dealloc : bool) : M Lib VALUE :=
  let* str := call in
  let* c := conn in
  let* _ := ruby_libvirt_raise_error_if (negb (is_Some_bool str)) func c in
  match str with
  | None => ret Qnil
  | Some mem =>
      if dealloc then
        let* a := native_alloc mem in
        let* (result, exception) := rb_protect rb_str_new2_at a in
        let* _ := c_free a in
        if exception =? 0 then ret result else rb_jump_tag exception
      else rb_str_new2 mem
  end.

(** Modelled from the spec: the macro [ruby_libvirt_generate_call_nil] of
    [common.h] is not part of the sources at hand.  A negative result is a
    [RemoteError], otherwise [nil] is returned. *)
Definition ruby_libvirt_generate_call_nil (func : string)
    (call : M Lib Z) (conn : M Lib virConnectPtr) : M Lib VALUE :=
  let* r := call in
  let* c := conn in
  let* _ := ruby_libvirt_raise_error_if (r <? 0) func c in
  ret Qnil.

(** Modelled from the spec: the macro [ruby_libvirt_generate_call_free]
    of [common.h] is not part of the sources at hand.  [release()] gives
    up the local client resources only and is idempotent: a handle that
    still wraps a pointer has it released with [virSecretFree] and then
    cleared; a handle already released is left alone. *)
Definition ruby_libvirt_generate_call_free (s : VALUE) : M Lib VALUE :=
  let* o := Data_Get_Struct s in
  match DATA_PTR o with
  | Some ptr =>
      let* r := libcall (CallFree ptr) (virSecretFree ptr) in
      let* c := ruby_libvirt_connect_get s in
      let* _ := ruby_libvirt_raise_error_if (r <? 0) "virSecretFree" c in
      let* _ := set_DATA_PTR s None in
      ret Qnil
  | None => ret Qnil
  end.

(** [struct ruby_libvirt_str_new_arg]. *)
Record ruby_libvirt_str_new_arg := mk_str_new_arg { val : addr; size : nat }.

(** Modelled from the spec: [ruby_libvirt_str_new_wrap] of [common.h] is
    not part of the sources at hand.  The value is handed to the caller as
    a byte sequence with an explicit length: [size] bytes starting at
    [val]. *)
Definition ruby_libvirt_str_new_wrap (args : ruby_libvirt_str_new_arg)
  : M Lib VALUE :=
  rb_str_new (val args) (size args).

(** *** [secret.c] *)

(* C leaves the order in which the arguments of a call are evaluated
   open.  Where two of them can raise ([secret_get(s)] and
   [ruby_libvirt_value_to_uint(flags)]) they are taken left to right;
   either way both are evaluated before the libvirt function is entered,
   and no statement below depends on which of the two exceptions wins
   when both would be raised. *)

(** [secret_get] (lines 37-40). *)
Definition secret_get (s : VALUE) : M Lib virSecretPtr :=
  ruby_libvirt_get_struct s.

(** [secret.get_uuid_string] (lines 54-58). *)
Definition libvirt_secret_get_uuid_string (s : VALUE) : M Lib VALUE :=
  ruby_libvirt_generate_uuid "virSecretGetUUIDString"
    (let* p := secret_get s in
     libcall (CallGetUUIDString p) (virSecretGetUUIDString p))
    (ruby_libvirt_connect_get s).

(** [secret.get_usage_type] (lines 67-72). *)
Definition libvirt_secret_get_usage_type (s : VALUE) : M Lib VALUE :=
  ruby_libvirt_generate_call_int "virSecretGetUsageType"
    (let* p := secret_get s in
     libcall (CallGetUsageType p) (virSecretGetUsageType p))
    (ruby_libvirt_connect_get s).

(** [secret.get_usage_id] (lines 81-86); the 0 is [dealloc]. *)
Definition libvirt_secret_get_usage_id (s : VALUE) : M Lib VALUE :=
  ruby_libvirt_generate_call_string "virSecretGetUsageID"
    (let* p := secret_get s in
     libcall (CallGetUsageID p) (virSecretGetUsageID p))
    (ruby_libvirt_connect_get s) false.

(** [secret.get_xml_desc(flags=0)] (lines 95-105); the 1 is [dealloc]. *)
Definition libvirt_secret_get_xml_desc (argv : list VALUE) (s : VALUE)
  : M Lib VALUE :=
  let* flags := rb_scan_args_01 argv in
  ruby_libvirt_generate_call_string "virSecretGetXMLDesc"
    (let* p := secret_get s in
     let* f := ruby_libvirt_value_to_uint flags in
     libcall (CallGetXMLDesc p f) (virSecretGetXMLDesc p f))
    (ruby_libvirt_connect_get s) true.

(** [secret.set_value(value, flags=0)] (lines 114-128). *)
Definition libvirt_secret_set_value (argv : list VALUE) (s : VALUE)
  : M Lib VALUE :=
  let* (value, flags) := rb_scan_args_11 argv in
  let* value := StringValue value in
  ruby_libvirt_generate_call_nil "virSecretSetValue"
    (let* p := secret_get s in
     let* f := ruby_libvirt_value_to_uint flags in
     libcall (CallSetValue p (RSTRING_PTR value) (RSTRING_LEN value) f)
             (virSecretSetValue p (RSTRING_PTR value) (RSTRING_LEN value) f))
    (ruby_libvirt_connect_get s).

(** [val = virSecretGetValue(secret, &value_size, flags)]: the call, with
    the buffer it returns placed in native memory.  ([value_size] is not
    written when the result is NULL; nothing reads it then.) *)
Definition virSecretGetValue_call (p : virSecretPtr) (flags : Z)
  : M Lib (option addr * nat) :=
  let* r := libcall (CallGetValue p flags) (virSecretGetValue p flags) in
  match r with
  | None => ret (None, 0%nat)
  | Some buf => let* a := native_alloc buf in ret (Some a, length buf)
  end.

(** [secret.get_value(flags=0)] (lines 137-162). *)
Definition libvirt_secret_get_value (argv : list VALUE) (s : VALUE)
  : M Lib VALUE :=
  let* flags := rb_scan_args_01 argv in
  let* p := secret_get s in
  let* f := ruby_libvirt_value_to_uint flags in
  let* (val, value_size) := virSecretGetValue_call p f in
  let* c := ruby_libvirt_connect_get s in
  let* _ := ruby_libvirt_raise_error_if (negb (is_Some_bool val))
              "virSecretGetValue" c in
  match val with
  | None => ret Qnil
  | Some val =>
      let args := mk_str_new_arg val value_size in
      let* (ret_, exception) := rb_protect ruby_libvirt_str_new_wrap args in
      let* _ := c_free val in
      if exception =? 0 then ret ret_ else rb_jump_tag exception
  end.

(** [secret.undefine] (lines 171-176). *)
Definition libvirt_secret_undefine (s : VALUE) : M Lib VALUE :=
  ruby_libvirt_generate_call_nil "virSecretUndefine"
    (let* p := secret_get s in
     libcall (CallUndefine p) (virSecretUndefine p))
    (ruby_libvirt_connect_get s).

(** [secret.free] (lines 185-188). *)
Definition libvirt_secret_free (s : VALUE) : M Lib VALUE :=
  ruby_libvirt_generate_call_free s.

(** *** [ruby_libvirt_secret_init] *)

(** The functions registered as methods of [Libvirt::Secret]. *)
Inductive CFunc :=
| F_get_uuid_string
| F_get_usage_type
| F_get_usage_id
| F_get_xml_desc
| F_set_value
| F_get_value
| F_undefine
| F_free.

(** Equality of method functions is decidable. *)
#[global] Instance CFunc_eq_dec : EqDecision CFunc.
Proof. solve_decision. Defined.

(** A call of method function [f] on receiver [s] with arguments [argv];
    the functions registered with arity 0 take none. *)
Definition cfunc_body (f : CFunc) (argv : list VALUE) (s : VALUE)
  : M Lib VALUE :=
  match f with
  | F_get_uuid_string => libvirt_secret_get_uuid_string s
  | F_get_usage_type => libvirt_secret_get_usage_type s
  | F_get_usage_id => libvirt_secret_get_usage_id s
  | F_get_xml_desc => libvirt_secret_get_xml_desc argv s
  | F_set_value => libvirt_secret_set_value argv s
  | F_get_value => libvirt_secret_get_value argv s
  | F_undefine => libvirt_secret_undefine s
  | F_free => libvirt_secret_free s
  end.

End Binding.

(** What [libvirt.h] declares of the secret API: whether it has the type
    [virSecretPtr] at all, and the value of each enumerator, [None] for
    one the installed libvirt does not have. *)
Record libvirt_h := mk_libvirt_h {
  virSecretPtr_declared : bool;
  VIR_SECRET_USAGE_TYPE_VOLUME : option Z;
  VIR_SECRET_USAGE_TYPE_CEPH : option Z;
  VIR_SECRET_USAGE_TYPE_ISCSI : option Z;
  VIR_SECRET_USAGE_TYPE_NONE : option Z
}.

(** The feature macros of [extconf.h] that [secret.c] tests. *)
Record extconf_h := mk_extconf_h {
  HAVE_TYPE_VIRSECRETPTR : bool;
  HAVE_CONST_VIR_SECRET_USAGE_TYPE_CEPH : bool;
  HAVE_CONST_VIR_SECRET_USAGE_TYPE_ISCSI : bool;
  HAVE_CONST_VIR_SECRET_USAGE_TYPE_NONE : bool
}.

(** Modelled from the spec: [extconf.h] is generated when the extension
    is configured and is not part of the sources at hand.  A member of the
    enumeration may not exist in an older libvirt; its [HAVE_CONST_] macro
    is set exactly when the installed header declares it, and
    [HAVE_TYPE_VIRSECRETPTR] when it declares the type. *)
Definition extconf (h : libvirt_h) : extconf_h :=
  mk_extconf_h (virSecretPtr_declared h)
               (is_Some_bool (VIR_SECRET_USAGE_TYPE_CEPH h))
               (is_Some_bool (VIR_SECRET_USAGE_TYPE_ISCSI h))
               (is_Some_bool (VIR_SECRET_USAGE_TYPE_NONE h)).

(** One definition made by the init function. *)
Inductive Defn :=
| DefClass (name : string)
| DefAttr (name : string)
| DefConst (name : string) (v : VALUE)
| DefMethod (name : string) (f : CFunc) (argc : Z).

(** [rb_define_const(c_secret, name, INT2NUM(ENUMERATOR))] in a branch the
    preprocessor kept: it compiles only if the header declares the
    enumerator. *)
Definition define_const (name : string) (enumerator : option Z)
  : option (list Defn) :=
  match enumerator with
  | Some v => Some [DefConst name (INT2NUM v)]
  | None => None
  end.

(** The same under [#if have ... #endif]. *)
Definition define_const_if (have : bool) (name : string)
    (enumerator : option Z) : option (list Defn) :=
  if have then define_const name enumerator else Some [].

(** The [rb_define_method] calls (lines 219-228), each with the arity it
    registers: 0, or -1 for [argc]/[argv]. *)
Definition secret_methods : list Defn :=
  [ DefMethod "get_uuid_string" F_get_uuid_string 0;
    DefMethod "get_usage_type" F_get_usage_type 0;
    DefMethod "get_usage_id" F_get_usage_id 0;
    DefMethod "get_xml_desc" F_get_xml_desc (-1);
    DefMethod "set_value" F_set_value (-1);
    DefMethod "get_value" F_get_value (-1);
    DefMethod "undefine" F_undefine 0;
    DefMethod "free" F_free 0 ].

(** [ruby_libvirt_secret_init], compiled against header [h] with
    configuration [cfg]: the definitions it makes when run, in order, or
    [None] when the file does not compile. *)
Definition ruby_libvirt_secret_init (cfg : extconf_h) (h : libvirt_h)
  : option (list Defn) :=
  if HAVE_TYPE_VIRSECRETPTR cfg then
    volume ← define_const "USAGE_TYPE_VOLUME" (VIR_SECRET_USAGE_TYPE_VOLUME h);
    ceph ← define_const_if (HAVE_CONST_VIR_SECRET_USAGE_TYPE_CEPH cfg)
              "USAGE_TYPE_CEPH" (VIR_SECRET_USAGE_TYPE_CEPH h);
    iscsi ← define_const_if (HAVE_CONST_VIR_SECRET_USAGE_TYPE_ISCSI cfg)
               "USAGE_TYPE_ISCSI" (VIR_SECRET_USAGE_TYPE_ISCSI h);
    none ← define_const_if (HAVE_CONST_VIR_SECRET_USAGE_TYPE_NONE cfg)
              "USAGE_TYPE_NONE" (VIR_SECRET_USAGE_TYPE_NONE h);
    Some ([DefClass "Secret"; DefAttr "connection"]
            ++ volume ++ ceph ++ iscsi ++ none ++ secret_methods)%list
  else Some [].

(** [Libvirt::Secret.const_get(name)] after the definitions [defs]. *)
Fixpoint const_get (defs : list Defn) (name : string) : option VALUE :=
  match defs with
  | [] => None
  | DefConst n v :: rest =>
      if String.eqb n name then Some v else const_get rest name
  | _ :: rest => const_get rest name
  end.

(** The function and arity registered for method [name]. *)
Fixpoint method_get (defs : list Defn) (name : string) : option (CFunc * Z) :=
  match defs with
  | [] => None
  | DefMethod n f argc :: rest =>
      if String.eqb n name then Some (f, argc) else method_get rest name
  | _ :: rest => method_get rest name
  end.

(** The usage-type constants the class can have, each with the enumerator
    of [libvirt.h] it mirrors. *)
Definition usage_type_constants (h : libvirt_h) : list (string * option Z) :=
  [ ("USAGE_TYPE_VOLUME", VIR_SECRET_USAGE_TYPE_VOLUME h);
    ("USAGE_TYPE_CEPH", VIR_SECRET_USAGE_TYPE_CEPH h);
    ("USAGE_TYPE_ISCSI", VIR_SECRET_USAGE_TYPE_ISCSI h);
    ("USAGE_TYPE_NONE", VIR_SECRET_USAGE_TYPE_NONE h) ].

(* ===================================================================== *)
(** ** A reference implementation of the library interface *)
(* ===================================================================== *)

(** A small libvirt used to run the binding on concrete inputs.  It keeps
    the two kinds of state libvirt keeps: the client-side [virSecret]
    objects a [virSecretPtr] points to (connection, UUID, usage type and
    usage ID, filled in when the object is looked up and alive until
    [virSecretFree]), and the daemon's secret store (XML description and
    value, gone after [virSecretUndefine]).  In this library
    [virSecretGetUUIDString], [virSecretGetUsageType] and
    [virSecretGetUsageID] read the client-side object, and the other
    calls go to the store and fail once the secret is no longer there;
    [StrictLib] below is the variant in which every call goes to the
    store. *)
Module RefLib.

Record Handle := mk_Handle {
  h_conn : virConnectPtr;
  h_secret : nat;             (* the secret's key in the daemon's store *)
  h_uuid : list byte;
  h_usage_type : Z;
  h_usage_id : list byte
}.

Record Stored := mk_Stored {
  st_xml : list byte;
  st_value : option (list byte)
}.

Record State := mk_State {
  handles : gmap virSecretPtr Handle;
  store : gmap nat Stored;
  last_error : gmap virConnectPtr virError
}.

Definition VIR_ERR_NO_SECRET : Z := 66.

Definition fail (c : virConnectPtr) (code : Z) (msg : string) (st : State)
  : State :=
  mk_State (handles st) (store st)
           (<[c := mk_virError code msg]> (last_error st)).

Definition GetUUIDString (p : virSecretPtr) (st : State)
  : (Z * list byte) * State :=
  match handles st !! p with
  | Some h => ((0, (h_uuid h ++ [x00])%list), st)
  | None => ((-1, []), st)
  end.

Definition GetUsageType (p : virSecretPtr) (st : State) : Z * State :=
  match handles st !! p with
  | Some h => (h_usage_type h, st)
  | None => (-1, st)
  end.

Definition GetUsageID (p : virSecretPtr) (st : State)
  : option (list byte) * State :=
  match handles st !! p with
  | Some h => (Some (h_usage_id h ++ [x00])%list, st)
  | None => (None, st)
  end.

Definition GetXMLDesc (p : virSecretPtr) (flags : Z) (st : State)
  : option (list byte) * State :=
  match handles st !! p with
  | Some h =>
      match store st !! h_secret h with
      | Some d => (Some (st_xml d ++ [x00])%list, st)
      | None => (None, fail (h_conn h) VIR_ERR_NO_SECRET "Secret not found" st)
      end
  | None => (None, st)
  end.

Definition SetValue (p : virSecretPtr) (value : list byte) (value_size : nat)
    (flags : Z) (st : State) : Z * State :=
  match handles st !! p with
  | Some h =>
      match store st !! h_secret h with
      | Some d =>
          (0, mk_State (handles st)
                (<[h_secret h := mk_Stored (st_xml d) (Some (take value_size value))]>
                   (store st))
                (last_error st))
      | None => (-1, fail (h_conn h) VIR_ERR_NO_SECRET "Secret not found" st)
      end
  | None => (-1, st)
  end.

Definition GetValue (p : virSecretPtr) (flags : Z) (st : State)
  : option (list byte) * State :=
  match handles st !! p with
  | Some h =>
      match store st !! h_secret h with
      | Some d =>
          match st_value d with
          | Some v => (Some v, st)
          | None =>
              (None, fail (h_conn h) VIR_ERR_NO_SECRET
                          "secret does not have a value set" st)
          end
      | None => (None, fail (h_conn h) VIR_ERR_NO_SECRET "Secret not found" st)
      end
  | None => (None, st)
  end.

Definition Undefine (p : virSecretPtr) (st : State) : Z * State :=
  match handles st !! p with
  | Some h =>
      match store st !! h_secret h with
      | Some _ =>
          (0, mk_State (handles st) (delete (h_secret h) (store st))
                       (last_error st))
      | None => (-1, fail (h_conn h) VIR_ERR_NO_SECRET "Secret not found" st)
      end
  | None => (-1, st)
  end.

Definition Free (p : virSecretPtr) (st : State) : Z * State :=
  match handles st !! p with
  | Some _ => (0, mk_State (delete p (handles st)) (store st) (last_error st))
  | None => (-1, st)
  end.

Definition ConnGetLastError (c : virConnectPtr) (st : State)
  : option virError :=
  last_error st !! c.

#[global] Instance reflib : Libvirt State := {
  virSecretGetUUIDString := GetUUIDString;
  virSecretGetUsageType := GetUsageType;
  virSecretGetUsageID := GetUsageID;
  virSecretGetXMLDesc := GetXMLDesc;
  virSecretSetValue := SetValue;
  virSecretGetValue := GetValue;
  virSecretUndefine := Undefine;
  virSecretFree := Free;
  virConnGetLastError := ConnGetLastError
}.

(** What this library and its daemon hold for the secrets: everything but
    the error reports. *)
Definition view (st : State)
  : gmap virSecretPtr Handle * gmap nat Stored :=
  (handles st, store st).

(** A daemon holding one secret: usage type Volume (1), usage ID
    [pool/vol1], no value yet, looked up through connection 7 as the
    client object at pointer 1. *)
Definition uuid0 : list byte :=
  list_byte_of_string "3a81f177-67f5-4a5a-8b1e-0d1f2c7a9e55".

Definition st0 : State :=
  mk_State
    {[ 1%nat := mk_Handle 7%nat 10%nat uuid0 1 (list_byte_of_string "pool/vol1") ]}
    {[ 10%nat := mk_Stored (list_byte_of_string "<secret/>") None ]}
    ∅.

(** The Ruby side of it: object 0 is the [Libvirt::Secret] wrapping that
    pointer. *)
Definition w0 : World State :=
  mk_World st0 {[ 0%nat := mk_RSecret (Some 1%nat) 7%nat ]} ∅ false None [].

Definition s0 : VALUE := RData 0.

(** The same after [set_value] of a value with a zero byte inside, and
    after [set_value] of the zero-length value. *)
Definition w_set : World State :=
  snd (libvirt_secret_set_value
         [RString (list_byte_of_string "s3cr3t" ++ [x00]
                   ++ list_byte_of_string "pad")%list] s0 w0).

Definition w_empty : World State :=
  snd (libvirt_secret_set_value [RString []] s0 w0).

(** [w_set] with Ruby's allocator exhausted. *)
Definition w_set_nomem : World State :=
  mk_World (lib w_set) (objects w_set) (cheap w_set) true (errinfo w_set)
           (events w_set).

End RefLib.

(** Runs a sequence of method calls on [s], keeping each result. *)
Fixpoint run_calls {Lib} `{Libvirt Lib} (calls : list (CFunc * list VALUE))
    (s : VALUE) (w : World Lib) : list (Result VALUE) * World Lib :=
  match calls with
  | [] => ([], w)
  | (f, argv) :: rest =>
      let '(r, w') := cfunc_body f argv s w in
      let '(rs, w'') := run_calls rest s w' in
      (r :: rs, w'')
  end.

(** A value with a zero byte inside. *)
Definition secret_bytes : list byte :=
  (list_byte_of_string "s3cr3t" ++ [x00] ++ list_byte_of_string "pad")%list.

(** The header of a libvirt that has [VIR_SECRET_USAGE_TYPE_CEPH] but
    neither [..._ISCSI] nor [..._NONE] yet. *)
Definition libvirt_h_old : libvirt_h :=
  mk_libvirt_h true (Some 1) (Some 2) None None.


(* ===================================================================== *)
(** ** Vocabulary of the statements *)
(* ===================================================================== *)

Section Vocabulary.
Context {Lib : Type} {L : Libvirt Lib}.

(** The Ruby object a value denotes, if it is a [Libvirt::Secret]. *)
Definition handle_of (w : World Lib) (s : VALUE) : option RSecret :=
  match s with
  | RData id => objects w !! id
  | _ => None
  end.

(** A Live handle: it still wraps pointer [p]; [c] is the connection that
    owns it. *)
Definition Live (w : World Lib) (s : VALUE) (p : virSecretPtr)
    (c : virConnectPtr) : Prop :=
  handle_of w s = Some (mk_RSecret (Some p) c).

(** A Released handle: [free] has cleared the pointer. *)
Definition Released (w : World Lib) (s : VALUE) (c : virConnectPtr) : Prop :=
  handle_of w s = Some (mk_RSecret None c).

(** The value of a well-formed [flags] argument. *)
Definition flags_value (v : VALUE) : option Z :=
  match v with
  | Qnil => Some 0
  | RInteger n =>
      if (- 2 ^ 31 <=? n) && (n <? 2 ^ 32) then Some (n mod 2 ^ 32) else None
  | _ => None
  end.

(** The call into libvirt that a method invocation on a Live handle
    wrapping [p] leads to; [None] when the arguments are refused before
    anything is dispatched. *)
Definition lib_call_of (f : CFunc) (argv : list VALUE) (p : virSecretPtr)
  : option LibCall :=
  match f, argv with
  | F_get_uuid_string, _ => Some (CallGetUUIDString p)
  | F_get_usage_type, _ => Some (CallGetUsageType p)
  | F_get_usage_id, _ => Some (CallGetUsageID p)
  | F_get_xml_desc, [] => Some (CallGetXMLDesc p 0)
  | F_get_xml_desc, [fl] => fl' ← flags_value fl; Some (CallGetXMLDesc p fl')
  | F_get_xml_desc, _ => None
  | F_set_value, [RString v] =>
      Some (CallSetValue p (RSTRING_PTR v) (RSTRING_LEN v) 0)
  | F_set_value, [RString v; fl] =>
      fl' ← flags_value fl;
      Some (CallSetValue p (RSTRING_PTR v) (RSTRING_LEN v) fl')
  | F_set_value, _ => None
  | F_get_value, [] => Some (CallGetValue p 0)
  | F_get_value, [fl] => fl' ← flags_value fl; Some (CallGetValue p fl')
  | F_get_value, _ => None
  | F_undefine, _ => Some (CallUndefine p)
  | F_free, _ => Some (CallFree p)
  end.

(** The libvirt function a call names. *)
Definition call_name (c : LibCall) : string :=
  match c with
  | CallGetUUIDString _ => "virSecretGetUUIDString"
  | CallGetUsageType _ => "virSecretGetUsageType"
  | CallGetUsageID _ => "virSecretGetUsageID"
  | CallGetXMLDesc _ _ => "virSecretGetXMLDesc"
  | CallSetValue _ _ _ _ => "virSecretSetValue"
  | CallGetValue _ _ => "virSecretGetValue"
  | CallUndefine _ => "virSecretUndefine"
  | CallFree _ => "virSecretFree"
  end.

(** The state libvirt is in after a call. *)
Definition lib_after (c : LibCall) (l : Lib) : Lib :=
  match c with
  | CallGetUUIDString p => snd (virSecretGetUUIDString p l)
  | CallGetUsageType p => snd (virSecretGetUsageType p l)
  | CallGetUsageID p => snd (virSecretGetUsageID p l)
  | CallGetXMLDesc p fl => snd (virSecretGetXMLDesc p fl l)
  | CallSetValue p v n fl => snd (virSecretSetValue p v n fl l)
  | CallGetValue p fl => snd (virSecretGetValue p fl l)
  | CallUndefine p => snd (virSecretUndefine p l)
  | CallFree p => snd (virSecretFree p l)
  end.

(** Whether libvirt reports failure for a call made in state [l]: a
    negative [int], or a NULL pointer. *)
Definition lib_fails (c : LibCall) (l : Lib) : bool :=
  match c with
  | CallGetUUIDString p => fst (fst (virSecretGetUUIDString p l)) <? 0
  | CallGetUsageType p => fst (virSecretGetUsageType p l) <? 0
  | CallGetUsageID p => negb (is_Some_bool (fst (virSecretGetUsageID p l)))
  | CallGetXMLDesc p fl => negb (is_Some_bool (fst (virSecretGetXMLDesc p fl l)))
  | CallSetValue p v n fl => fst (virSecretSetValue p v n fl l) <? 0
  | CallGetValue p fl => negb (is_Some_bool (fst (virSecretGetValue p fl l)))
  | CallUndefine p => fst (virSecretUndefine p l) <? 0
  | CallFree p => fst (virSecretFree p l) <? 0
  end.

(** The calls into libvirt among some events. *)
Definition lib_calls (evs : list Event) : list LibCall :=
  omap (fun e => match e with ELib c => Some c | _ => None end) evs.

(** An exception raised by the binding's own checks or by Ruby, with no
    error of the daemon behind it. *)
Definition is_local_error (e : Exn) : bool :=
  match e with
  | LibvirtError _ _ _ => false
  | _ => true
  end.

(** The methods that only read. *)
Definition read_only (f : CFunc) : bool :=
  match f with
  | F_get_uuid_string | F_get_usage_type | F_get_usage_id
  | F_get_xml_desc | F_get_value => true
  | _ => false
  end.

(** "Every failure raised to the caller is a [RemoteError] of the
    connection that owns the handle." *)
Definition every_failure_is_remote : Prop :=
  forall (f : CFunc) (argv : list VALUE) (s : VALUE) (w : World Lib)
         (p : virSecretPtr) (c : virConnectPtr) (e : Exn),
    Live w s p c ->
    fst (cfunc_body f argv s w) = Raise e ->
    exists func err, e = LibvirtError func c err.

(** The calls that only ask the library for something. *)
Definition is_getter (c : LibCall) : bool :=
  match c with
  | CallGetUUIDString _ | CallGetUsageType _ | CallGetUsageID _
  | CallGetXMLDesc _ _ | CallGetValue _ _ => true
  | _ => false
  end.

(** What a dispatched call has done when the method is left. *)
Definition dispatched (w : World Lib) (s : VALUE) (c : virConnectPtr)
    (f : CFunc) (call : LibCall) (r : Result VALUE) (w' : World Lib)
    (evs : list Event) : Prop :=
  lib w' = lib_after call (lib w)
  /\ events w' = (events w ++ ELib call :: evs)%list
  /\ lib_calls evs = []
  /\ cheap w' = cheap w
  /\ ruby_nomem w' = ruby_nomem w
  /\ if lib_fails call (lib w)
     then r = Raise (LibvirtError (call_name call) c
                                  (virConnGetLastError c (lib w')))
          /\ objects w' = objects w /\ evs = []
     else (f = F_free ->
             r = Ok Qnil /\ Released w' s c
             /\ forall id, s <> RData id -> objects w' !! id = objects w !! id)
          /\ (f <> F_free ->
                objects w' = objects w
                /\ (is_Ok r = true
                    \/ r = Raise NoMemoryError /\ ruby_nomem w = true
                       /\ is_getter call = true)).

(** What the theorem on read-only methods asks of libvirt: its getters
    leave what the daemon stores for its secrets, seen through [view], as
    it is. *)
Definition getters_read_only {D : Type} (view : Lib -> D) : Prop :=
  forall (call : LibCall) (l : Lib),
    is_getter call = true -> view (lib_after call l) = view l.

(** What the round-trip theorem asks of libvirt: a value it accepted is
    the value it returns next, byte for byte.  The library reads
    [value_size] bytes at [value]. *)
Definition stores_values : Prop :=
  forall (p : virSecretPtr) (value : list byte) (value_size : nat) (l : Lib),
    (value_size <= length value)%nat ->
    0 <= fst (virSecretSetValue p value value_size 0 l) ->
    fst (virSecretGetValue p 0 (snd (virSecretSetValue p value value_size 0 l)))
    = Some (take value_size value).

(** A payload argument that is absent or [nil]. *)
Definition payload_missing (argv : list VALUE) : bool :=
  match argv with
  | [] => true
  | Qnil :: _ => true
  | _ => false
  end.

(** No method of the list is [free]. *)
Definition no_free (calls : list (CFunc * list VALUE)) : Prop :=
  Forall (fun fa => fst fa <> F_free) calls.

End Vocabulary.
Arguments stores_values Lib {L}.
Arguments every_failure_is_remote Lib {L}.

(* ===================================================================== *)
(** ** Method calls from Ruby, and sequences of them *)
(* ===================================================================== *)

Section Further.
Context {Lib : Type} {L : Libvirt Lib}.

(** A method call from Ruby on an object of the class defined by [defs].
    For a method registered with a fixed arity Ruby checks the number of
    arguments before the C function is entered; with arity -1 the
    function is given [argc] and [argv] as they are.  [None]: the class
    has no such method, and nothing of this file runs. *)
Definition rb_funcall (defs : list Defn) (name : string) (argv : list VALUE)
    (s : VALUE) : option (M Lib VALUE) :=
  match method_get defs name with
  | Some (f, argc) =>
      Some (if (0 <=? argc) && negb (Z.of_nat (length argv) =? argc)
            then rb_raise (ArgumentError "wrong number of arguments")
            else cfunc_body f argv s)
  | None => None
  end.

(** The numbers of arguments each method function goes on with. *)
Definition accepts_argc (f : CFunc) (n : nat) : bool :=
  match f with
  | F_get_xml_desc | F_get_value => (n <=? 1)%nat
  | F_set_value => (1 <=? n)%nat && (n <=? 2)%nat
  | _ => (n =? 0)%nat
  end.

(** The secret a call into libvirt is about. *)
Definition call_ptr (c : LibCall) : virSecretPtr :=
  match c with
  | CallGetUUIDString p | CallGetUsageType p | CallGetUsageID p
  | CallGetXMLDesc p _ | CallSetValue p _ _ _ | CallGetValue p _
  | CallUndefine p | CallFree p => p
  end.

(** What the theorem on undefined secrets asks of libvirt, in the words
    of its data model: undefining a secret removes it from the daemon's
    store for good, and every later call about it, [virSecretFree] apart,
    reports failure.  [gone l p] says that in state [l] the secret behind
    [p] has been removed. *)
Definition fails_once_undefined (gone : Lib -> virSecretPtr -> Prop) : Prop :=
  (forall p l, 0 <= fst (virSecretUndefine p l) ->
               gone (snd (virSecretUndefine p l)) p)
  /\ (forall call l p, gone l p -> gone (lib_after call l) p)
  /\ (forall call l, gone l (call_ptr call) ->
                     call <> CallFree (call_ptr call) ->
                     lib_fails call l = true).

(** What a call on a handle that was released comes to: [free] returns
    [nil], every other method fails by the binding's own check. *)
Definition refused_or_nil (fa : CFunc * list VALUE) (r : Result VALUE)
  : Prop :=
  match fst fa with
  | F_free => r = Ok Qnil
  | _ => exists e, r = Raise e /\ is_local_error e = true
  end.

End Further.

(** The reference library with every call consulting the daemon: a call
    about a secret the daemon's store no longer has (or about a pointer
    that is no object) reports failure, the getters of UUID and usage
    included. *)
Module StrictLib.

Record State := mk_State { base : RefLib.State }.

(** [Some st']: the secret behind [p] is not there; [st'] is the state
    with the error recorded for the connection. *)
Definition missing (p : virSecretPtr) (st : RefLib.State)
  : option RefLib.State :=
  match RefLib.handles st !! p with
  | Some h =>
      match RefLib.store st !! RefLib.h_secret h with
      | Some _ => None
      | None =>
          Some (RefLib.fail (RefLib.h_conn h) RefLib.VIR_ERR_NO_SECRET
                            "Secret not found" st)
      end
  | None => Some st
  end.

(** A function of the reference library behind that check; [failure] is
    the value it reports failure with. *)
Definition strict {R : Type} (failure : R)
    (f : virSecretPtr -> RefLib.State -> R * RefLib.State)
    (p : virSecretPtr) (st : State) : R * State :=
  match missing p (base st) with
  | Some st' => (failure, mk_State st')
  | None => let '(r, st') := f p (base st) in (r, mk_State st')
  end.

Definition gone (st : State) (p : virSecretPtr) : Prop :=
  missing p (base st) <> None.

#[global] Instance strictlib : Libvirt State := {
  virSecretGetUUIDString := strict (-1, []) RefLib.GetUUIDString;
  virSecretGetUsageType := strict (-1) RefLib.GetUsageType;
  virSecretGetUsageID := strict None RefLib.GetUsageID;
  virSecretGetXMLDesc :=
    fun p flags => strict None (fun q => RefLib.GetXMLDesc q flags) p;
  virSecretSetValue :=
    fun p value value_size flags =>
      strict (-1) (fun q => RefLib.SetValue q value value_size flags) p;
  virSecretGetValue :=
    fun p flags => strict None (fun q => RefLib.GetValue q flags) p;
  virSecretUndefine := strict (-1) RefLib.Undefine;
  virSecretFree :=
    fun p st => let '(r, st') := RefLib.Free p (base st) in (r, mk_State st');
  virConnGetLastError := fun c st => RefLib.ConnGetLastError c (base st)
}.

(** The daemon and handle of [RefLib.w0], with this library. *)
Definition w0 : World State :=
  mk_World (mk_State RefLib.st0)
           {[ 0%nat := mk_RSecret (Some 1%nat) 7%nat ]} ∅ false None [].

End StrictLib.

(* ===================================================================== *)
(** ** What each method does on a Live handle *)
(* ===================================================================== *)

(** A buffer placed at the fresh address and then freed leaves the native
    heap as it was. *)
Lemma heap_alloc_free (h : gmap addr (list byte)) (buf : list byte) :
  delete (fresh (dom h)) (<[fresh (dom h) := buf]> h) = h.
Proof.
  apply delete_insert_id, not_elem_of_dom, is_fresh.
Qed.

Ltac unfold_binding :=
  cbv [libvirt_secret_get_uuid_string libvirt_secret_get_usage_type
       libvirt_secret_get_usage_id libvirt_secret_get_xml_desc
       libvirt_secret_set_value libvirt_secret_get_value
       libvirt_secret_undefine libvirt_secret_free
       ruby_libvirt_generate_uuid ruby_libvirt_generate_call_int
       ruby_libvirt_generate_call_string ruby_libvirt_generate_call_nil
       ruby_libvirt_generate_call_free ruby_libvirt_str_new_wrap
       ruby_libvirt_raise_error_if ruby_libvirt_connect_get
       ruby_libvirt_get_struct secret_get virSecretGetValue_call
       StringValue Data_Get_Struct set_DATA_PTR rb_protect rb_jump_tag
       rb_str_new rb_str_new2 rb_str_new2_at c_free native_alloc libcall
       bind ret rb_raise
       lib objects cheap ruby_nomem errinfo events val size
       DATA_PTR iv_connection is_Some_bool negb].

Ltac crunch Hl :=
  repeat (cbn; rewrite ?Hl, ?lookup_insert_eq, ?heap_alloc_free,
                       <- ?app_assoc).

Ltac start_run Hl s w :=
  destruct s; try discriminate; unfold Live, Released, handle_of in Hl;
  destruct w as [l objs heap nomem ei evs]; cbn in Hl |- *.

Section Runs.
Context {Lib : Type} {L : Libvirt Lib}.

Lemma bind_ret_l {A B} (a : A) (k : A -> M Lib B) : bind (ret a) k = k a.
Proof. reflexivity. Qed.

Lemma bind_raise_l {A B} (e : Exn) (k : A -> M Lib B) :
  bind (rb_raise e) k = rb_raise e.
Proof. reflexivity. Qed.

Lemma value_to_uint_ok (v : VALUE) (fl : Z) :
  flags_value v = Some fl ->
  ruby_libvirt_value_to_uint (Lib := Lib) v = ret fl.
Proof.
  destruct v; simpl; try discriminate.
  - intros [= <-]. reflexivity.
  - destruct (_ && _); [intros [= <-]; reflexivity | discriminate].
Qed.

Lemma value_to_uint_bad (v : VALUE) :
  flags_value v = None ->
  exists e, ruby_libvirt_value_to_uint (Lib := Lib) v = rb_raise e
            /\ is_local_error e = true.
Proof.
  destruct v; simpl; try discriminate; try (intros _; eexists; split; reflexivity).
  destruct (_ && _); [discriminate | intros _; eexists; split; reflexivity].
Qed.

(** The C string stored in a buffer that holds [bytes] followed by NUL,
    when [bytes] has no NUL of its own. *)
Lemma c_string_terminated (bytes : list byte) :
  Forall (fun b => b <> x00) bytes ->
  c_string (bytes ++ [x00]) = bytes.
Proof.
  induction 1 as [|b bytes Hb _ IH]; simpl.
  - reflexivity.
  - destruct (Byte.eqb b x00) eqn:E.
    + apply Byte.byte_dec_bl in E. contradiction.
    + now rewrite IH.
Qed.

(** The explicit length recovers a Ruby String from its memory, whatever
    its bytes are. *)
Lemma take_RSTRING (bytes : list byte) :
  take (RSTRING_LEN bytes) (RSTRING_PTR bytes) = bytes.
Proof.
  unfold RSTRING_LEN, RSTRING_PTR. now rewrite take_app_length.
Qed.

Lemma get_uuid_string_run (w : World Lib) s p c :
  Live w s p c ->
  libvirt_secret_get_uuid_string s w =
    let '((r, uuid), l') := virSecretGetUUIDString p (lib w) in
    let w' := mk_World l' (objects w) (cheap w) (ruby_nomem w) (errinfo w)
                       (events w ++ [ELib (CallGetUUIDString p)]) in
    if r <? 0
    then (Raise (LibvirtError "virSecretGetUUIDString" c
                              (virConnGetLastError c l')), w')
    else (if ruby_nomem w then Raise NoMemoryError
          else Ok (RString (c_string uuid)), w').
Proof.
  intros Hl. start_run Hl s w. unfold_binding. rewrite Hl.
  destruct (virSecretGetUUIDString p l) as [[r uuid] l']. crunch Hl.
  destruct (r <? 0); [reflexivity|]. now destruct nomem.
Qed.

Lemma get_usage_type_run (w : World Lib) s p c :
  Live w s p c ->
  libvirt_secret_get_usage_type s w =
    let '(r, l') := virSecretGetUsageType p (lib w) in
    let w' := mk_World l' (objects w) (cheap w) (ruby_nomem w) (errinfo w)
                       (events w ++ [ELib (CallGetUsageType p)]) in
    if r <? 0
    then (Raise (LibvirtError "virSecretGetUsageType" c
                              (virConnGetLastError c l')), w')
    else (Ok (INT2NUM r), w').
Proof.
  intros Hl. start_run Hl s w. unfold_binding. rewrite Hl.
  destruct (virSecretGetUsageType p l) as [r l']. crunch Hl.
  now destruct (r <? 0).
Qed.

Lemma get_usage_id_run (w : World Lib) s p c :
  Live w s p c ->
  libvirt_secret_get_usage_id s w =
    let '(r, l') := virSecretGetUsageID p (lib w) in
    let w' := mk_World l' (objects w) (cheap w) (ruby_nomem w) (errinfo w)
                       (events w ++ [ELib (CallGetUsageID p)]) in
    match r with
    | None => (Raise (LibvirtError "virSecretGetUsageID" c
                                   (virConnGetLastError c l')), w')
    | Some mem => (if ruby_nomem w then Raise NoMemoryError
                   else Ok (RString (c_string mem)), w')
    end.
Proof.
  intros Hl. start_run Hl s w. unfold_binding. rewrite Hl.
  destruct (virSecretGetUsageID p l) as [[mem|] l']; crunch Hl;
    [now destruct nomem | reflexivity].
Qed.

(** The optional [flags] argument, once scanned. *)
Lemma scan_flags (argv : list VALUE) (fl : Z) :
  match argv with
  | [] => Some 0
  | [v] => flags_value v
  | _ => None
  end = Some fl ->
  exists v, rb_scan_args_01 (Lib := Lib) argv = ret v
            /\ flags_value v = Some fl.
Proof.
  destruct argv as [|v [|? ?]]; try discriminate; intros H.
  - exists Qnil. now split.
  - exists v. now split.
Qed.

Lemma get_xml_desc_run (w : World Lib) s p c argv fl :
  Live w s p c ->
  lib_call_of F_get_xml_desc argv p = Some (CallGetXMLDesc p fl) ->
  libvirt_secret_get_xml_desc argv s w =
    let '(r, l') := virSecretGetXMLDesc p fl (lib w) in
    match r with
    | None =>
        (Raise (LibvirtError "virSecretGetXMLDesc" c (virConnGetLastError c l')),
         mk_World l' (objects w) (cheap w) (ruby_nomem w) (errinfo w)
                  (events w ++ [ELib (CallGetXMLDesc p fl)]))
    | Some mem =>
        let a := fresh (dom (cheap w)) in
        (if ruby_nomem w then Raise NoMemoryError
         else Ok (RString (c_string mem)),
         mk_World l' (objects w) (cheap w) (ruby_nomem w)
                  (if ruby_nomem w then Some NoMemoryError else errinfo w)
                  (events w ++ [ELib (CallGetXMLDesc p fl);
                                EStrNew a (length (c_string mem)); ECFree a]))
    end.
Proof.
  intros Hl Hc.
  destruct (scan_flags argv fl) as (v & Hs & Hv).
  { destruct argv as [|v [|? ?]]; cbn in Hc; try discriminate;
      [congruence | destruct (flags_value v); cbn in Hc; congruence]. }
  start_run Hl s w.
  unfold libvirt_secret_get_xml_desc.
  rewrite Hs, bind_ret_l, (value_to_uint_ok _ _ Hv).
  unfold_binding. rewrite Hl.
  destruct (virSecretGetXMLDesc p fl l) as [[mem|] l']; crunch Hl;
    [destruct nomem; crunch Hl; reflexivity | reflexivity].
Qed.

(** The payload and [flags] arguments of [set_value], once scanned. *)
Lemma set_value_args (argv : list VALUE) (p : virSecretPtr) (call : LibCall) :
  lib_call_of F_set_value argv p = Some call ->
  exists v flv fl,
    rb_scan_args_11 (Lib := Lib) argv = ret (RString v, flv)
    /\ flags_value flv = Some fl
    /\ call = CallSetValue p (RSTRING_PTR v) (RSTRING_LEN v) fl.
Proof.
  destruct argv as [|[| | v |] [|flv [|? ?]]]; cbn; try discriminate.
  - intros [= <-]. now exists v, Qnil, 0.
  - destruct (flags_value flv) as [fl|] eqn:E; cbn; [|discriminate].
    intros [= <-]. now exists v, flv, fl.
Qed.

Lemma set_value_run (w : World Lib) s p c argv v fl :
  Live w s p c ->
  lib_call_of F_set_value argv p
    = Some (CallSetValue p (RSTRING_PTR v) (RSTRING_LEN v) fl) ->
  libvirt_secret_set_value argv s w =
    let '(r, l') :=
      virSecretSetValue p (RSTRING_PTR v) (RSTRING_LEN v) fl (lib w) in
    let w' := mk_World l' (objects w) (cheap w) (ruby_nomem w) (errinfo w)
                (events w ++ [ELib (CallSetValue p (RSTRING_PTR v)
                                                 (RSTRING_LEN v) fl)]) in
    if r <? 0
    then (Raise (LibvirtError "virSecretSetValue" c
                              (virConnGetLastError c l')), w')
    else (Ok Qnil, w').
Proof.
  intros Hl Hc.
  destruct (set_value_args _ _ _ Hc) as (v' & flv & fl' & Hs & Hv & Heq).
  injection Heq as Hp _ Hfl. unfold RSTRING_PTR in Hp.
  apply app_inj_tail in Hp as [<- _].
  subst fl'.
  start_run Hl s w.
  unfold libvirt_secret_set_value.
  rewrite Hs, bind_ret_l. cbn [StringValue]. rewrite bind_ret_l.
  rewrite (value_to_uint_ok _ _ Hv).
  unfold_binding. rewrite Hl.
  destruct (virSecretSetValue p _ _ fl l) as [r l']; crunch Hl.
  now destruct (r <? 0).
Qed.

Lemma get_value_run (w : World Lib) s p c argv fl :
  Live w s p c ->
  lib_call_of F_get_value argv p = Some (CallGetValue p fl) ->
  libvirt_secret_get_value argv s w =
    let '(r, l') := virSecretGetValue p fl (lib w) in
    match r with
    | None =>
        (Raise (LibvirtError "virSecretGetValue" c (virConnGetLastError c l')),
         mk_World l' (objects w) (cheap w) (ruby_nomem w) (errinfo w)
                  (events w ++ [ELib (CallGetValue p fl)]))
    | Some buf =>
        let a := fresh (dom (cheap w)) in
        (if ruby_nomem w then Raise NoMemoryError else Ok (RString buf),
         mk_World l' (objects w) (cheap w) (ruby_nomem w)
                  (if ruby_nomem w then Some NoMemoryError else errinfo w)
                  (events w ++ [ELib (CallGetValue p fl);
                                EStrNew a (length buf); ECFree a]))
    end.
Proof.
  intros Hl Hc.
  destruct (scan_flags argv fl) as (v & Hs & Hv).
  { destruct argv as [|v [|? ?]]; cbn in Hc; try discriminate;
      [congruence | destruct (flags_value v); cbn in Hc; congruence]. }
  start_run Hl s w.
  unfold libvirt_secret_get_value.
  rewrite Hs, bind_ret_l, (value_to_uint_ok _ _ Hv).
  unfold_binding. rewrite Hl.
  destruct (virSecretGetValue p fl l) as [[buf|] l']; crunch Hl;
    [|reflexivity].
  destruct nomem; crunch Hl; rewrite ?take_ge by lia; reflexivity.
Qed.

Lemma undefine_run (w : World Lib) s p c :
  Live w s p c ->
  libvirt_secret_undefine s w =
    let '(r, l') := virSecretUndefine p (lib w) in
    let w' := mk_World l' (objects w) (cheap w) (ruby_nomem w) (errinfo w)
                       (events w ++ [ELib (CallUndefine p)]) in
    if r <? 0
    then (Raise (LibvirtError "virSecretUndefine" c
                              (virConnGetLastError c l')), w')
    else (Ok Qnil, w').
Proof.
  intros Hl. start_run Hl s w. unfold_binding. rewrite Hl.
  destruct (virSecretUndefine p l) as [r l']. crunch Hl.
  now destruct (r <? 0).
Qed.

Lemma free_run (w : World Lib) id p c :
  Live w (RData id) p c ->
  libvirt_secret_free (RData id) w =
    let '(r, l') := virSecretFree p (lib w) in
    let evs := (events w ++ [ELib (CallFree p)])%list in
    if r <? 0
    then (Raise (LibvirtError "virSecretFree" c (virConnGetLastError c l')),
          mk_World l' (objects w) (cheap w) (ruby_nomem w) (errinfo w) evs)
    else (Ok Qnil,
          mk_World l' (<[id := mk_RSecret None c]> (objects w)) (cheap w)
                   (ruby_nomem w) (errinfo w) evs).
Proof.
  intros Hl. unfold Live, handle_of in Hl.
  destruct w as [l objs heap nomem ei evs]; cbn in Hl |- *.
  unfold_binding. rewrite Hl.
  destruct (virSecretFree p l) as [r l']. crunch Hl.
  destruct (r <? 0); crunch Hl; reflexivity.
Qed.

(* ===================================================================== *)
(** ** Handles that are not Live, and arguments that are refused *)
(* ===================================================================== *)

Lemma free_released (w : World Lib) s c :
  Released w s c -> libvirt_secret_free s w = (Ok Qnil, w).
Proof.
  intros Hl. start_run Hl s w. unfold_binding. now rewrite Hl.
Qed.

Lemma secret_get_released (w : World Lib) s c :
  Released w s c ->
  secret_get s w = (Raise (ArgumentError "Secret has been freed"), w).
Proof.
  intros Hl. start_run Hl s w. unfold_binding. now rewrite Hl.
Qed.

(** When [secret_get] refuses the receiver, every method but [free] stops
    there or earlier, with the state untouched. *)
Lemma cfunc_stops_at_secret_get (w : World Lib) s f argv e0 :
  secret_get s w = (Raise e0, w) -> is_local_error e0 = true ->
  f <> F_free ->
  exists e, cfunc_body f argv s w = (Raise e, w) /\ is_local_error e = true.
Proof.
  intros Hg He0 Hf.
  destruct f; try congruence; clear Hf; cbn [cfunc_body].
  - unfold libvirt_secret_get_uuid_string, ruby_libvirt_generate_uuid, bind at 1 2.
    rewrite Hg. now eexists.
  - unfold libvirt_secret_get_usage_type, ruby_libvirt_generate_call_int, bind at 1 2.
    rewrite Hg. now eexists.
  - unfold libvirt_secret_get_usage_id, ruby_libvirt_generate_call_string, bind at 1 2.
    rewrite Hg. now eexists.
  - unfold libvirt_secret_get_xml_desc.
    destruct argv as [|v [|? ?]]; cbn [rb_scan_args_01];
      rewrite ?bind_ret_l, ?bind_raise_l; try (now eexists);
      unfold ruby_libvirt_generate_call_string, bind at 1 2;
      rewrite Hg; now eexists.
  - unfold libvirt_secret_set_value.
    destruct argv as [|v [|fl [|? ?]]]; cbn [rb_scan_args_11];
      rewrite ?bind_ret_l, ?bind_raise_l; try (now eexists);
      (destruct v; cbn [StringValue];
       rewrite ?bind_ret_l, ?bind_raise_l; try (now eexists);
       unfold ruby_libvirt_generate_call_nil, bind at 1 2;
       rewrite Hg; now eexists).
  - unfold libvirt_secret_get_value.
    destruct argv as [|v [|? ?]]; cbn [rb_scan_args_01];
      rewrite ?bind_ret_l, ?bind_raise_l; try (now eexists);
      unfold bind at 1; rewrite Hg; now eexists.
  - unfold libvirt_secret_undefine, ruby_libvirt_generate_call_nil, bind at 1 2.
    rewrite Hg. now eexists.
Qed.

(** On a Released handle every method but [free] fails locally. *)
Lemma cfunc_released (w : World Lib) s c f argv :
  Released w s c -> f <> F_free ->
  exists e, cfunc_body f argv s w = (Raise e, w) /\ is_local_error e = true.
Proof.
  intros Hl. eapply cfunc_stops_at_secret_get;
    [exact (secret_get_released _ _ _ Hl) | reflexivity].
Qed.

Lemma Data_Get_Struct_none (w : World Lib) s :
  handle_of w s = None ->
  Data_Get_Struct s w = (Raise (TypeError "wrong argument type"), w).
Proof.
  intros Hl. destruct s; try reflexivity. unfold handle_of in Hl.
  unfold Data_Get_Struct. now rewrite Hl.
Qed.

(** A receiver that is no [Libvirt::Secret] is refused by every method,
    with the state untouched. *)
Lemma cfunc_not_secret (w : World Lib) s f argv :
  handle_of w s = None ->
  exists e, cfunc_body f argv s w = (Raise e, w) /\ is_local_error e = true.
Proof.
  intros Hl. pose proof (Data_Get_Struct_none _ _ Hl) as Hd.
  destruct (decide (f = F_free)) as [-> | Hf].
  - cbn [cfunc_body].
    unfold libvirt_secret_free, ruby_libvirt_generate_call_free, bind.
    rewrite Hd. now eexists.
  - apply cfunc_stops_at_secret_get
      with (e0 := TypeError "wrong argument type"); [| reflexivity | exact Hf].
    unfold secret_get, ruby_libvirt_get_struct, bind. now rewrite Hd.
Qed.

Lemma secret_get_live (w : World Lib) s p c :
  Live w s p c -> secret_get s w = (Ok p, w).
Proof.
  intros Hl. start_run Hl s w. unfold_binding. now rewrite Hl.
Qed.

(** On a Live handle, arguments of the wrong number or shape are refused
    before anything is dispatched, with the state untouched. *)
Lemma cfunc_rejected (w : World Lib) s p c f argv :
  Live w s p c -> lib_call_of f argv p = None ->
  exists e, cfunc_body f argv s w = (Raise e, w) /\ is_local_error e = true.
Proof.
  intros Hl Hc. pose proof (secret_get_live _ _ _ _ Hl) as Hg.
  destruct f; try discriminate; cbn [cfunc_body].
  - unfold libvirt_secret_get_xml_desc.
    destruct argv as [|v [|? ?]]; cbn in Hc; try discriminate;
      cbn [rb_scan_args_01]; rewrite ?bind_ret_l, ?bind_raise_l;
      try (now eexists).
    destruct (flags_value v) eqn:E; [discriminate|].
    destruct (value_to_uint_bad v E) as (e & He & Hloc).
    unfold ruby_libvirt_generate_call_string, bind at 1 2.
    rewrite Hg, He. now exists e.
  - unfold libvirt_secret_set_value.
    destruct argv as [|v [|fl [|? ?]]]; cbn [rb_scan_args_11];
      rewrite ?bind_ret_l, ?bind_raise_l; try (now eexists);
      (destruct v; cbn in Hc; try discriminate; cbn [StringValue];
       rewrite ?bind_ret_l, ?bind_raise_l; try (now eexists)).
    destruct (flags_value fl) eqn:E; [discriminate|].
    destruct (value_to_uint_bad fl E) as (e & He & Hloc).
    unfold ruby_libvirt_generate_call_nil, bind at 1 2.
    rewrite Hg, He. now exists e.
  - unfold libvirt_secret_get_value.
    destruct argv as [|v [|? ?]]; cbn in Hc; try discriminate;
      cbn [rb_scan_args_01]; rewrite ?bind_ret_l, ?bind_raise_l;
      try (now eexists).
    destruct (flags_value v) eqn:E; [discriminate|].
    destruct (value_to_uint_bad v E) as (e & He & Hloc).
    unfold bind at 1. rewrite Hg. unfold bind at 1. rewrite He. now exists e.
Qed.

(* ===================================================================== *)
(** ** One statement for all methods *)
(* ===================================================================== *)

Lemma lib_call_of_xml (argv : list VALUE) (p : virSecretPtr) (call : LibCall) :
  lib_call_of F_get_xml_desc argv p = Some call ->
  exists fl, call = CallGetXMLDesc p fl.
Proof.
  destruct argv as [|v [|? ?]]; cbn; try discriminate.
  - intros [= <-]. now exists 0.
  - destruct (flags_value v) as [fl|]; cbn; [|discriminate].
    intros [= <-]. now exists fl.
Qed.

Lemma lib_call_of_get_value (argv : list VALUE) (p : virSecretPtr)
    (call : LibCall) :
  lib_call_of F_get_value argv p = Some call ->
  exists fl, call = CallGetValue p fl.
Proof.
  destruct argv as [|v [|? ?]]; cbn; try discriminate.
  - intros [= <-]. now exists 0.
  - destruct (flags_value v) as [fl|]; cbn; [|discriminate].
    intros [= <-]. now exists fl.
Qed.

Ltac finish_dispatched :=
  unfold dispatched; cbn;
  repeat match goal with
         | |- _ /\ _ => split
         | |- _ -> _ => intro
         | |- ?x = ?x => reflexivity
         end;
  try congruence; try discriminate; auto.

Lemma cfunc_dispatched (w : World Lib) s p c f argv call :
  Live w s p c -> lib_call_of f argv p = Some call ->
  exists r w' evs,
    cfunc_body f argv s w = (r, w') /\ dispatched w s c f call r w' evs.
Proof.
  intros Hl Hc. destruct f; cbn [cfunc_body].
  - injection Hc as <-. rewrite (get_uuid_string_run _ _ _ _ Hl).
    unfold dispatched; cbn [lib_fails lib_after call_name].
    destruct (virSecretGetUUIDString p (lib w)) as [[r uuid] l'].
    cbn [fst snd]. destruct (r <? 0); do 2 eexists; exists [];
      (split; [reflexivity|]); finish_dispatched.
    destruct (ruby_nomem w); auto.
  - injection Hc as <-. rewrite (get_usage_type_run _ _ _ _ Hl).
    unfold dispatched; cbn [lib_fails lib_after call_name].
    destruct (virSecretGetUsageType p (lib w)) as [r l'].
    cbn [fst snd]. destruct (r <? 0); do 2 eexists; exists [];
      (split; [reflexivity|]); finish_dispatched.
  - injection Hc as <-. rewrite (get_usage_id_run _ _ _ _ Hl).
    unfold dispatched; cbn [lib_fails lib_after call_name].
    destruct (virSecretGetUsageID p (lib w)) as [[mem|] l'];
      cbn [fst snd negb is_Some_bool]; do 2 eexists; exists [];
      (split; [reflexivity|]); finish_dispatched.
    destruct (ruby_nomem w); auto.
  - destruct (lib_call_of_xml _ _ _ Hc) as [fl ->].
    rewrite (get_xml_desc_run _ _ _ _ _ _ Hl Hc).
    unfold dispatched; cbn [lib_fails lib_after call_name].
    destruct (virSecretGetXMLDesc p fl (lib w)) as [[mem|] l'];
      cbn [fst snd negb is_Some_bool]; do 3 eexists;
      (split; [reflexivity|]); finish_dispatched.
    destruct (ruby_nomem w); auto.
  - destruct (set_value_args _ _ _ Hc) as (v & flv & fl & _ & _ & ->).
    rewrite (set_value_run _ _ _ _ _ _ _ Hl Hc).
    unfold dispatched; cbn [lib_fails lib_after call_name].
    destruct (virSecretSetValue p _ _ fl (lib w)) as [r l'].
    cbn [fst snd]. destruct (r <? 0); do 2 eexists; exists [];
      (split; [reflexivity|]); finish_dispatched.
  - destruct (lib_call_of_get_value _ _ _ Hc) as [fl ->].
    rewrite (get_value_run _ _ _ _ _ _ Hl Hc).
    unfold dispatched; cbn [lib_fails lib_after call_name].
    destruct (virSecretGetValue p fl (lib w)) as [[buf|] l'];
      cbn [fst snd negb is_Some_bool]; do 3 eexists;
      (split; [reflexivity|]); finish_dispatched.
    destruct (ruby_nomem w); auto.
  - injection Hc as <-. rewrite (undefine_run _ _ _ _ Hl).
    unfold dispatched; cbn [lib_fails lib_after call_name].
    destruct (virSecretUndefine p (lib w)) as [r l'].
    cbn [fst snd]. destruct (r <? 0); do 2 eexists; exists [];
      (split; [reflexivity|]); finish_dispatched.
  - injection Hc as <-. destruct s; try discriminate.
    rewrite (free_run _ _ _ _ Hl).
    unfold dispatched; cbn [lib_fails lib_after call_name].
    destruct (virSecretFree p (lib w)) as [r l'].
    cbn [fst snd]. destruct (r <? 0); do 2 eexists; exists [];
      (split; [reflexivity|]); finish_dispatched.
    + unfold Released, handle_of. cbn. apply lookup_insert_eq.
    + rewrite lookup_insert_ne; congruence.
Qed.

(* ===================================================================== *)
(** ** The value: [get_value] and [set_value] *)
(* ===================================================================== *)

(** C1.  On a Live handle and with a well-formed [flags] argument,
    [get_value] fails with [RemoteError] exactly when [virSecretGetValue]
    returns NULL.  A zero-length value is not that case: the call does not
    fail with [RemoteError], and the caller receives the zero-length
    String (Ruby being able to allocate it; the same holds for a value of
    any length). *)
Theorem get_value_null_is_not_empty (w : World Lib) s p c argv fl :
  Live w s p c ->
  lib_call_of F_get_value argv p = Some (CallGetValue p fl) ->
  (is_RemoteError (fst (libvirt_secret_get_value argv s w)) = true
   <-> fst (virSecretGetValue p fl (lib w)) = None)
  /\ (fst (virSecretGetValue p fl (lib w)) = Some [] ->
      is_RemoteError (fst (libvirt_secret_get_value argv s w)) = false
      /\ (ruby_nomem w = false ->
          fst (libvirt_secret_get_value argv s w) = Ok (RString [])))
  /\ (forall buf, fst (virSecretGetValue p fl (lib w)) = Some buf ->
      ruby_nomem w = false ->
      fst (libvirt_secret_get_value argv s w) = Ok (RString buf)).
Proof.
  intros Hl Hc. rewrite (get_value_run _ _ _ _ _ _ Hl Hc).
  destruct (virSecretGetValue p fl (lib w)) as [[buf|] l']; cbn [fst].
  - split; [|split].
    + split; [destruct (ruby_nomem w)|]; discriminate.
    + intros [= ->]. split; [now destruct (ruby_nomem w)|].
      intros ->. reflexivity.
    + intros buf' [= ->] ->. reflexivity.
  - split; [|split]; try discriminate. now split.
Qed.

(** C7.  When [virSecretGetValue] hands over a buffer, [get_value] builds
    the Ruby String from it and frees it, in this order and once, whether
    building the String returns or raises; after the call the buffer is
    not in native memory and nothing of it is kept in the handle. *)
Theorem get_value_frees_buffer_once (w : World Lib) s p c argv fl buf :
  Live w s p c ->
  lib_call_of F_get_value argv p = Some (CallGetValue p fl) ->
  fst (virSecretGetValue p fl (lib w)) = Some buf ->
  exists a,
    cheap w !! a = None
    /\ events (snd (libvirt_secret_get_value argv s w))
       = (events w ++ [ELib (CallGetValue p fl);
                       EStrNew a (length buf); ECFree a])%list
    /\ cheap (snd (libvirt_secret_get_value argv s w)) = cheap w
    /\ objects (snd (libvirt_secret_get_value argv s w)) = objects w
    /\ fst (libvirt_secret_get_value argv s w)
       = if ruby_nomem w then Raise NoMemoryError else Ok (RString buf).
Proof.
  intros Hl Hc Hv. rewrite (get_value_run _ _ _ _ _ _ Hl Hc).
  destruct (virSecretGetValue p fl (lib w)) as [r l']; cbn [fst] in Hv.
  subst r. exists (fresh (dom (cheap w))). cbn.
  split; [apply not_elem_of_dom, is_fresh | auto].
Qed.

(** C3.  [set_value] refuses an absent or [nil] payload by its own
    argument checks, with the state untouched (so nothing was dispatched).
    A String payload is passed to [virSecretSetValue]: the library is
    called once, with the memory of the String together with its recorded
    length, which recovers every byte of it, zero bytes included; the
    state libvirt is left in is the one that call produced, and the
    method returns [nil] exactly when the call did not report failure,
    raising [RemoteError] otherwise. *)
Theorem set_value_payload (w : World Lib) s :
  (forall argv, payload_missing argv = true ->
     exists e, libvirt_secret_set_value argv s w = (Raise e, w)
               /\ is_local_error e = true)
  /\ (forall p c argv v fl,
        Live w s p c ->
        lib_call_of F_set_value argv p
          = Some (CallSetValue p (RSTRING_PTR v) (RSTRING_LEN v) fl) ->
        lib_calls (events (snd (libvirt_secret_set_value argv s w)))
          = (lib_calls (events w)
             ++ [CallSetValue p (v ++ [x00]) (length v) fl])%list
        /\ take (length v) (v ++ [x00]) = v
        /\ lib (snd (libvirt_secret_set_value argv s w))
           = snd (virSecretSetValue p (v ++ [x00]) (length v) fl (lib w))
        /\ fst (libvirt_secret_set_value argv s w)
           = if fst (virSecretSetValue p (v ++ [x00]) (length v) fl (lib w))
                <? 0
             then Raise (LibvirtError "virSecretSetValue" c
                           (virConnGetLastError c
                              (snd (virSecretSetValue p (v ++ [x00])
                                      (length v) fl (lib w)))))
             else Ok Qnil).
Proof.
  split.
  - intros argv Hm. unfold libvirt_secret_set_value.
    destruct argv as [|v [|fl [|? ?]]]; cbn [rb_scan_args_11];
      rewrite ?bind_ret_l, ?bind_raise_l; try (now eexists);
      (destruct v; try discriminate; cbn [StringValue];
       rewrite ?bind_raise_l; now eexists).
  - intros p c argv v fl Hl Hc.
    split; [|split; [apply take_RSTRING|]];
      rewrite (set_value_run _ _ _ _ _ _ _ Hl Hc);
      change (RSTRING_PTR v) with (v ++ [x00])%list;
      change (RSTRING_LEN v) with (length v);
      destruct (virSecretSetValue p (v ++ [x00]) (length v) fl (lib w))
        as [r l'].
    + unfold lib_calls.
      destruct (r <? 0); cbn [snd events]; now rewrite omap_app.
    + cbn [fst snd]. now destruct (r <? 0).
Qed.

(** C2.  With a libvirt that returns the value it accepted, a successful
    [set_value(v)] followed by [get_value] returns [v] itself, for every
    byte sequence [v] (Ruby being able to allocate the String). *)
Theorem set_value_then_get_value (w w1 : World Lib) s p c (v : list byte) :
  stores_values Lib ->
  Live w s p c ->
  ruby_nomem w = false ->
  libvirt_secret_set_value [RString v] s w = (Ok Qnil, w1) ->
  fst (libvirt_secret_get_value [] s w1) = Ok (RString v).
Proof.
  intros Hstore Hl Hmem Hset.
  rewrite (set_value_run w s p c [RString v] v 0 Hl eq_refl) in Hset.
  pose proof (Hstore p (RSTRING_PTR v) (RSTRING_LEN v) (lib w)) as Hget.
  destruct (virSecretSetValue p _ _ 0 (lib w)) as [r l'] eqn:E.
  cbn [fst snd] in Hget.
  destruct (r <? 0) eqn:Hr; [discriminate|]. injection Hset as <-.
  assert (Hl1 : Live (mk_World l' (objects w) (cheap w) (ruby_nomem w)
                       (errinfo w)
                       (events w ++ [ELib (CallSetValue p (RSTRING_PTR v)
                                             (RSTRING_LEN v) 0)])) s p c).
  { destruct s; try discriminate. exact Hl. }
  rewrite (get_value_run _ s p c [] 0 Hl1 eq_refl). cbn [lib ruby_nomem].
  rewrite take_RSTRING in Hget.
  destruct (virSecretGetValue p 0 l') as [r' l'']. cbn [fst] in Hget.
  rewrite Hget, Hmem.
  - reflexivity.
  - unfold RSTRING_LEN, RSTRING_PTR. rewrite length_app. lia.
  - apply Z.ltb_ge. exact Hr.
Qed.

(* ===================================================================== *)
(** ** Failures, and the state they leave *)
(* ===================================================================== *)

Lemma handle_cases (w : World Lib) s :
  handle_of w s = None
  \/ (exists c, Released w s c)
  \/ (exists p c, Live w s p c).
Proof.
  unfold Released, Live.
  destruct (handle_of w s) as [[[p|] c]|]; eauto.
Qed.

Lemma live_same_objects (w w' : World Lib) s p c :
  objects w' = objects w -> Live w s p c -> Live w' s p c.
Proof.
  unfold Live, handle_of. intros ->. auto.
Qed.

(** A method left by an exception has not changed any Ruby object. *)
Lemma raise_keeps_objects (w : World Lib) f argv s e :
  fst (cfunc_body f argv s w) = Raise e ->
  objects (snd (cfunc_body f argv s w)) = objects w.
Proof.
  intros He.
  destruct (handle_cases w s) as [Hn | [[c Hr] | (p & c & Hl)]].
  - now destruct (cfunc_not_secret w s f argv Hn) as (e' & -> & _).
  - destruct (decide (f = F_free)) as [-> | Hf].
    + cbn [cfunc_body]. now rewrite (free_released _ _ _ Hr).
    + now destruct (cfunc_released w s c f argv Hr Hf) as (e' & -> & _).
  - destruct (lib_call_of f argv p) as [call|] eqn:Hc.
    + destruct (cfunc_dispatched w s p c f argv call Hl Hc)
        as (r & w' & evs & Hrun & _ & _ & _ & _ & _ & Hres).
      rewrite Hrun in He |- *. cbn [fst snd] in He |- *. subst r.
      destruct (lib_fails call (lib w)); [apply Hres|].
      destruct (decide (f = F_free)) as [-> | Hf].
      * now destruct (proj1 Hres eq_refl) as (? & _).
      * now apply Hres.
    + now destruct (cfunc_rejected w s p c f argv Hl Hc) as (e' & -> & _).
Qed.

(** C6.  Whatever the receiver and the arguments, a method makes at most
    one call into libvirt and is left by returning or by an exception,
    never by a fault.  When it is left by an exception, the Ruby objects
    (so the handle: Live stays Live) and the native memory are what they
    were before the call, and the call into libvirt, if one was made,
    either failed there or was a getter: no change libvirt accepted is
    followed by a failure of the method. *)
Theorem failed_call_leaves_state (w : World Lib) f argv s :
  exists evs,
    events (snd (cfunc_body f argv s w)) = (events w ++ evs)%list
    /\ (length (lib_calls evs) <= 1)%nat
    /\ fst (cfunc_body f argv s w) <> Crash
    /\ (forall e, fst (cfunc_body f argv s w) = Raise e ->
          objects (snd (cfunc_body f argv s w)) = objects w
          /\ cheap (snd (cfunc_body f argv s w)) = cheap w
          /\ (forall p c, Live w s p c ->
                          Live (snd (cfunc_body f argv s w)) s p c)
          /\ (forall call, In call (lib_calls evs) ->
                 lib_fails call (lib w) = true \/ is_getter call = true)).
Proof.
  assert (Hlive : forall e, fst (cfunc_body f argv s w) = Raise e ->
            forall p c, Live w s p c ->
                        Live (snd (cfunc_body f argv s w)) s p c).
  { intros e He p c. apply live_same_objects.
    exact (raise_keeps_objects w f argv s e He). }
  assert (Hsame : forall e, cfunc_body f argv s w = (Raise e, w) ->
            exists evs,
              events (snd (cfunc_body f argv s w)) = (events w ++ evs)%list
              /\ (length (lib_calls evs) <= 1)%nat
              /\ fst (cfunc_body f argv s w) <> Crash
              /\ (forall e, fst (cfunc_body f argv s w) = Raise e ->
                    objects (snd (cfunc_body f argv s w)) = objects w
                    /\ cheap (snd (cfunc_body f argv s w)) = cheap w
                    /\ (forall p c, Live w s p c ->
                           Live (snd (cfunc_body f argv s w)) s p c)
                    /\ (forall call, In call (lib_calls evs) ->
                           lib_fails call (lib w) = true
                           \/ is_getter call = true))).
  { intros e He. exists []. rewrite He. cbn. rewrite app_nil_r.
    repeat split; auto; try discriminate; contradiction. }
  destruct (handle_cases w s) as [Hn | [[c Hr] | (p & c & Hl)]].
  - destruct (cfunc_not_secret w s f argv Hn) as (e & He & _). eauto.
  - destruct (decide (f = F_free)) as [-> | Hf].
    + cbn [cfunc_body]. rewrite (free_released _ _ _ Hr).
      exists []. cbn. rewrite app_nil_r.
      repeat split; auto; try discriminate; contradiction.
    + destruct (cfunc_released w s c f argv Hr Hf) as (e & He & _). eauto.
  - destruct (lib_call_of f argv p) as [call|] eqn:Hc.
    + destruct (cfunc_dispatched w s p c f argv call Hl Hc)
        as (r & w' & evs & Hrun & Hlib & Hev & Hcalls & Hheap & _ & Hres).
      exists (ELib call :: evs).
      change (lib_calls (ELib call :: evs)) with (call :: lib_calls evs).
      rewrite Hcalls.
      split; [rewrite Hrun; exact Hev|]. split; [cbn; lia|].
      assert (Hr : r <> Crash
                   /\ (forall e, r = Raise e ->
                         lib_fails call (lib w) = true
                         \/ is_getter call = true)).
      { destruct (lib_fails call (lib w)).
        - destruct Hres as (-> & _). split; [discriminate | auto].
        - destruct Hres as [Hfree Hother].
          destruct (decide (f = F_free)) as [-> | Hf].
          + destruct (Hfree eq_refl) as (-> & _). split; discriminate.
          + destruct (Hother Hf) as (_ & [Hok | (-> & _ & Hg)]).
            * split; [intros ->|intros e ->]; discriminate.
            * split; [discriminate | auto]. }
      split; [rewrite Hrun; apply Hr|].
      intros e He. split; [exact (raise_keeps_objects w f argv s e He)|].
      split; [rewrite Hrun; exact Hheap|].
      split; [exact (Hlive e He)|].
      intros call' [<- | []]. apply (proj2 Hr e).
      now rewrite Hrun in He.
    + destruct (cfunc_rejected w s p c f argv Hl Hc) as (e & He & _). eauto.
Qed.

(** A method other than [free] leaves a Live handle Live. *)
Lemma cfunc_keeps_live (w : World Lib) s p c f argv :
  f <> F_free -> Live w s p c ->
  Live (snd (cfunc_body f argv s w)) s p c.
Proof.
  intros Hf Hl.
  destruct (lib_call_of f argv p) as [call|] eqn:Hc.
  - destruct (cfunc_dispatched w s p c f argv call Hl Hc)
      as (r & w' & evs & -> & _ & _ & _ & _ & _ & Hres).
    cbn [snd]. apply (live_same_objects w); [|exact Hl].
    destruct (lib_fails call (lib w)).
    + apply Hres.
    + now apply Hres.
  - destruct (cfunc_rejected w s p c f argv Hl Hc) as (e & -> & _).
    exact Hl.
Qed.

Lemma calls_keep_live (calls : list (CFunc * list VALUE)) :
  forall (w : World Lib) s p c,
    no_free calls -> Live w s p c ->
    Live (snd (run_calls calls s w)) s p c.
Proof.
  induction calls as [|[f argv] calls IH]; intros w s p c Hnf Hl.
  - exact Hl.
  - inversion Hnf as [|? ? Hf Hrest]; subst. cbn [run_calls].
    pose proof (cfunc_keeps_live w s p c f argv Hf Hl) as Hl'.
    destruct (cfunc_body f argv s w) as [r w'].
    specialize (IH w' s p c Hrest Hl').
    destruct (run_calls calls s w') as [rs w'']. exact IH.
Qed.

(** On a Live handle a method fails with [RemoteError] exactly when the
    call it dispatched reports failure. *)
Lemma remote_error_iff_lib_fails (w : World Lib) s p c f argv :
  Live w s p c ->
  is_RemoteError (fst (cfunc_body f argv s w))
  = match lib_call_of f argv p with
    | Some call => lib_fails call (lib w)
    | None => false
    end.
Proof.
  intros Hl. destruct (lib_call_of f argv p) as [call|] eqn:Hc.
  - destruct (cfunc_dispatched w s p c f argv call Hl Hc)
      as (r & w' & evs & -> & _ & _ & _ & _ & _ & Hres).
    cbn [fst]. destruct (lib_fails call (lib w)).
    + now destruct Hres as (-> & _).
    + destruct Hres as [Hfree Hother].
      destruct (decide (f = F_free)) as [-> | Hf].
      * now destruct (Hfree eq_refl) as (-> & _).
      * destruct (Hother Hf) as (_ & [Hok | (-> & _)]); [|reflexivity].
        now destruct r as [|[]|].
  - destruct (cfunc_rejected w s p c f argv Hl Hc) as (e & -> & He).
    cbn. now destruct e.
Qed.

(** [undefine] does not release the handle: after it succeeded, and after
    any further calls other than [free], the handle is still Live, every
    call is dispatched as before, and it fails with [RemoteError] exactly
    when the libvirt call it makes reports failure. *)
Lemma after_undefine_calls_follow_libvirt (w w1 : World Lib) s p c calls :
  Live w s p c ->
  libvirt_secret_undefine s w = (Ok Qnil, w1) ->
  no_free calls ->
  Live (snd (run_calls calls s w1)) s p c
  /\ forall f argv,
       is_RemoteError (fst (cfunc_body f argv s (snd (run_calls calls s w1))))
       = match lib_call_of f argv p with
         | Some call => lib_fails call (lib (snd (run_calls calls s w1)))
         | None => false
         end.
Proof.
  intros Hl Hu Hnf.
  assert (Hl1 : Live w1 s p c).
  { pose proof (cfunc_keeps_live w s p c F_undefine [] ltac:(discriminate) Hl)
      as H. cbn [cfunc_body] in H. now rewrite Hu in H. }
  pose proof (calls_keep_live calls w1 s p c Hnf Hl1) as Hl2.
  split; [exact Hl2|]. intros f argv.
  exact (remote_error_iff_lib_fails _ s p c f argv Hl2).
Qed.

(** C8, as the code has it.  On a Live handle a call that fails does so
    in one of three ways: the arguments were refused before anything was
    dispatched (a plain Ruby exception, state untouched); libvirt reported
    failure (a [RemoteError] naming the libvirt function and carrying the
    last error libvirt holds for the connection that owns the handle); or
    libvirt succeeded and Ruby could not build the result (Ruby's own
    exception). *)
Theorem failures_of_a_live_handle (w : World Lib) s p c f argv e :
  Live w s p c ->
  fst (cfunc_body f argv s w) = Raise e ->
  match lib_call_of f argv p with
  | None => snd (cfunc_body f argv s w) = w /\ is_local_error e = true
  | Some call =>
      if lib_fails call (lib w)
      then e = LibvirtError (call_name call) c
                 (virConnGetLastError c (lib_after call (lib w)))
      else e = NoMemoryError /\ ruby_nomem w = true
  end.
Proof.
  intros Hl He. destruct (lib_call_of f argv p) as [call|] eqn:Hc.
  - destruct (cfunc_dispatched w s p c f argv call Hl Hc)
      as (r & w' & evs & Hrun & Hlib & _ & _ & _ & _ & Hres).
    rewrite Hrun in He. cbn [fst] in He. subst r.
    destruct (lib_fails call (lib w)).
    + destruct Hres as (Hr & _). rewrite Hlib in Hr. congruence.
    + destruct Hres as [Hfree Hother].
      destruct (decide (f = F_free)) as [-> | Hf].
      * now destruct (Hfree eq_refl) as (? & _).
      * destruct (Hother Hf) as (_ & [Hok | (Hr & Hm & _)]);
          [discriminate | split; congruence].
  - destruct (cfunc_rejected w s p c f argv Hl Hc) as (e' & Hrun & Hloc).
    rewrite Hrun in He |- *. cbn in He |- *. split; congruence.
Qed.

(* ===================================================================== *)
(** ** [free], and handles that were released *)
(* ===================================================================== *)

(** C5.  [free] is idempotent: once it has returned, calling it again
    returns again and changes nothing.  It asks nothing of libvirt but
    [virSecretFree] of the wrapped pointer, at most once, and leaves
    native memory and every other Ruby object alone.  After a call that
    failed on a Live handle the handle is still Live and [free] releases
    it as usual.  On a Released handle every other method fails by the
    binding's own check, the same way each time, with the state
    untouched: nothing is dispatched. *)
Theorem free_is_idempotent_and_local (w : World Lib) s :
  (forall w1, libvirt_secret_free s w = (Ok Qnil, w1) ->
              libvirt_secret_free s w1 = (Ok Qnil, w1))
  /\ (exists evs,
        events (snd (libvirt_secret_free s w)) = (events w ++ evs)%list
        /\ (lib_calls evs = []
            \/ exists p c, Live w s p c /\ lib_calls evs = [CallFree p])
        /\ cheap (snd (libvirt_secret_free s w)) = cheap w)
  /\ (forall f argv e p c,
        Live w s p c ->
        fst (cfunc_body f argv s w) = Raise e ->
        Live (snd (cfunc_body f argv s w)) s p c
        /\ fst (libvirt_secret_free s (snd (cfunc_body f argv s w))) <> Crash
        /\ (0 <= fst (virSecretFree p (lib (snd (cfunc_body f argv s w)))) ->
            exists w2,
              libvirt_secret_free s (snd (cfunc_body f argv s w)) = (Ok Qnil, w2)
              /\ Released w2 s c))
  /\ (forall c f argv,
        Released w s c -> f <> F_free ->
        exists e, cfunc_body f argv s w = (Raise e, w)
                  /\ is_local_error e = true)
  /\ (forall id, s <> RData id ->
        objects (snd (libvirt_secret_free s w)) !! id = objects w !! id).
Proof.
  assert (Hfree : forall (w0 : World Lib) p c,
            Live w0 s p c ->
            fst (libvirt_secret_free s w0) <> Crash
            /\ (0 <= fst (virSecretFree p (lib w0)) ->
                exists w2, libvirt_secret_free s w0 = (Ok Qnil, w2)
                           /\ Released w2 s c)).
  { intros w0 p c Hl. destruct s; try discriminate.
    rewrite (free_run _ _ _ _ Hl).
    destruct (virSecretFree p (lib w0)) as [r l']; cbn [fst].
    destruct (r <? 0) eqn:Hr; (split; [discriminate|]); intros Hpos.
    - apply Z.ltb_lt in Hr. lia.
    - eexists. split; [reflexivity|].
      unfold Released, handle_of. cbn. apply lookup_insert_eq. }
  split; [|split; [|split; [|split]]].
  - intros w1 Hrun.
    destruct (handle_cases w s) as [Hn | [[c Hr] | (p & c & Hl)]].
    + destruct (cfunc_not_secret w s F_free [] Hn) as (e & He & _).
      cbn [cfunc_body] in He. congruence.
    + rewrite (free_released _ _ _ Hr) in Hrun. injection Hrun as <-.
      exact (free_released _ _ _ Hr).
    + destruct (Hfree w p c Hl) as [_ Hok].
      destruct s; try discriminate. rewrite (free_run _ _ _ _ Hl) in Hrun, Hok.
      destruct (virSecretFree p (lib w)) as [r l']; cbn [fst] in Hok.
      destruct (r <? 0) eqn:Hr; [discriminate|]. injection Hrun as <-.
      apply (free_released _ _ c). unfold Released, handle_of. cbn.
      apply lookup_insert_eq.
  - destruct (handle_cases w s) as [Hn | [[c Hr] | (p & c & Hl)]].
    + destruct (cfunc_not_secret w s F_free [] Hn) as (e & He & _).
      cbn [cfunc_body] in He. rewrite He. exists []. cbn.
      rewrite app_nil_r. auto.
    + rewrite (free_released _ _ _ Hr). exists []. cbn.
      rewrite app_nil_r. auto.
    + exists [ELib (CallFree p)]. destruct s; try discriminate.
      rewrite (free_run _ _ _ _ Hl).
      destruct (virSecretFree p (lib w)) as [r l'].
      destruct (r <? 0); cbn; eauto 7.
  - intros f argv e p c Hl He.
    pose proof (live_same_objects w _ s p c
                  (raise_keeps_objects w f argv s e He) Hl) as Hlive.
    split; [exact Hlive|].
    exact (Hfree _ p c Hlive).
  - intros c f argv. apply cfunc_released.
  - intros id Hid.
    destruct (handle_cases w s) as [Hn | [[c Hr] | (p & c & Hl)]].
    + destruct (cfunc_not_secret w s F_free [] Hn) as (e & He & _).
      cbn [cfunc_body] in He. now rewrite He.
    + now rewrite (free_released _ _ _ Hr).
    + destruct s; try discriminate. rewrite (free_run _ _ _ _ Hl).
      destruct (virSecretFree p (lib w)) as [r l'].
      destruct (r <? 0); cbn; [reflexivity|].
      apply lookup_insert_ne. congruence.
Qed.

(* ===================================================================== *)
(** ** The methods that only read *)
(* ===================================================================== *)

Lemma read_only_call_is_getter (f : CFunc) argv p call :
  read_only f = true -> lib_call_of f argv p = Some call ->
  is_getter call = true.
Proof.
  destruct f; try discriminate; intros _ Hc.
  - now injection Hc as <-.
  - now injection Hc as <-.
  - now injection Hc as <-.
  - now destruct (lib_call_of_xml _ _ _ Hc) as [fl ->].
  - now destruct (lib_call_of_get_value _ _ _ Hc) as [fl ->].
Qed.

(** C10.  With a libvirt whose getters leave the daemon's secrets as they
    are, [get_uuid_string], [get_usage_type], [get_usage_id],
    [get_xml_desc] and [get_value] change neither the Ruby objects (a Live
    handle stays Live) nor native memory nor what the daemon stores; the
    only calls they make into libvirt are getters. *)
Theorem read_only_methods_change_nothing {D : Type} (view : Lib -> D)
    (w : World Lib) f argv s :
  getters_read_only view ->
  read_only f = true ->
  objects (snd (cfunc_body f argv s w)) = objects w
  /\ cheap (snd (cfunc_body f argv s w)) = cheap w
  /\ view (lib (snd (cfunc_body f argv s w))) = view (lib w)
  /\ (forall p c, Live w s p c -> Live (snd (cfunc_body f argv s w)) s p c)
  /\ exists evs,
       events (snd (cfunc_body f argv s w)) = (events w ++ evs)%list
       /\ forallb is_getter (lib_calls evs) = true.
Proof.
  intros Hview Hro.
  assert (Hf : f <> F_free) by (intros ->; discriminate).
  assert (Hsame : forall e, cfunc_body f argv s w = (Raise e, w) ->
            objects (snd (cfunc_body f argv s w)) = objects w
            /\ cheap (snd (cfunc_body f argv s w)) = cheap w
            /\ view (lib (snd (cfunc_body f argv s w))) = view (lib w)
            /\ (forall p c, Live w s p c ->
                            Live (snd (cfunc_body f argv s w)) s p c)
            /\ exists evs,
                 events (snd (cfunc_body f argv s w)) = (events w ++ evs)%list
                 /\ forallb is_getter (lib_calls evs) = true).
  { intros e ->. cbn. repeat split; auto. exists []. now rewrite app_nil_r. }
  destruct (handle_cases w s) as [Hn | [[c Hr] | (p & c & Hl)]].
  - destruct (cfunc_not_secret w s f argv Hn) as (e & He & _). eauto.
  - destruct (cfunc_released w s c f argv Hr Hf) as (e & He & _). eauto.
  - destruct (lib_call_of f argv p) as [call|] eqn:Hc.
    + pose proof (read_only_call_is_getter f argv p call Hro Hc) as Hg.
      destruct (cfunc_dispatched w s p c f argv call Hl Hc)
        as (r & w' & evs & -> & Hlib & Hev & Hcalls & Hheap & _ & Hres).
      cbn [snd].
      assert (Hobj : objects w' = objects w).
      { destruct (lib_fails call (lib w)); [apply Hres | now apply Hres]. }
      split; [exact Hobj|]. split; [exact Hheap|].
      split; [rewrite Hlib; now apply Hview|].
      split; [intros ? ?; now apply live_same_objects|].
      exists (ELib call :: evs). split; [exact Hev|].
      change (lib_calls (ELib call :: evs)) with (call :: lib_calls evs).
      rewrite Hcalls. cbn. now rewrite Hg.
    + destruct (cfunc_rejected w s p c f argv Hl Hc) as (e & He & _). eauto.
Qed.

End Runs.

(* ===================================================================== *)
(** ** The constants *)
(* ===================================================================== *)

(** C9.  Compiled against any [libvirt.h] (one that has [virSecretPtr]
    has the first enumerator, [VIR_SECRET_USAGE_TYPE_VOLUME]) and the
    configuration derived from it, [ruby_libvirt_secret_init] compiles;
    each usage-type constant is defined exactly when the header has the
    enumerator, with the enumerator's value; an enumerator the header
    lacks is left out and the methods are registered all the same. *)
Theorem usage_type_constants_mirror_libvirt (h : libvirt_h) :
  (virSecretPtr_declared h = true ->
   is_Some_bool (VIR_SECRET_USAGE_TYPE_VOLUME h) = true) ->
  exists defs,
    ruby_libvirt_secret_init (extconf h) h = Some defs
    /\ (forall name enumerator,
          In (name, enumerator) (usage_type_constants h) ->
          const_get defs name
          = if virSecretPtr_declared h then INT2NUM <$> enumerator else None)
    /\ (virSecretPtr_declared h = true ->
        forall d, In d secret_methods -> In d defs).
Proof.
  destruct h as [declared volume ceph iscsi none]. cbn. intros Hvol.
  destruct declared.
  - specialize (Hvol eq_refl). destruct volume as [vv|]; [|discriminate].
    destruct ceph as [vc|], iscsi as [vi|], none as [vn|]; cbn;
      (eexists; split; [reflexivity|]; split;
       [ intros name e [H|[H|[H|[H|[]]]]]; injection H as <- <-; reflexivity
       | intros _ d Hd; cbn in Hd |- *; tauto ]).
  - exists []. split; [reflexivity|]. split; [|discriminate].
    intros name e _. reflexivity.
Qed.

(* ===================================================================== *)
(** ** The reference library meets what the theorems ask of libvirt *)
(* ===================================================================== *)

Lemma reflib_stores_values : stores_values RefLib.State.
Proof.
  intros p value value_size l _. cbn. unfold RefLib.SetValue, RefLib.GetValue.
  destruct (RefLib.handles l !! p) as [h|] eqn:Hh; cbn; [|lia].
  destruct (RefLib.store l !! RefLib.h_secret h) as [d|] eqn:Hd; cbn; [|lia].
  intros _. rewrite Hh, lookup_insert_eq. reflexivity.
Qed.

Lemma reflib_getters_read_only : getters_read_only RefLib.view.
Proof.
  intros call l Hg. destruct call; try discriminate; cbn.
  - unfold RefLib.GetUUIDString. now destruct (RefLib.handles l !! p).
  - unfold RefLib.GetUsageType. now destruct (RefLib.handles l !! p).
  - unfold RefLib.GetUsageID. now destruct (RefLib.handles l !! p).
  - unfold RefLib.GetXMLDesc.
    destruct (RefLib.handles l !! p) as [h|]; [|reflexivity].
    now destruct (RefLib.store l !! RefLib.h_secret h).
  - unfold RefLib.GetValue.
    destruct (RefLib.handles l !! p) as [h|]; [|reflexivity].
    destruct (RefLib.store l !! RefLib.h_secret h) as [d|]; [|reflexivity].
    now destruct (RefLib.st_value d).
Qed.

(* ===================================================================== *)
(** ** The statements on concrete inputs *)
(* ===================================================================== *)

(** The spec's scenario, and what follows it: the value comes back byte
    for byte; after [undefine] the daemon no longer has the secret, the
    client-side object still answers; after [free] the handle is refused. *)
Example scenario :
  fst (run_calls [ (F_set_value, [RString secret_bytes]); (F_get_value, []);
                   (F_undefine, []); (F_get_value, []); (F_get_usage_id, []);
                   (F_free, []); (F_free, []); (F_get_value, []) ]
                 RefLib.s0 RefLib.w0)
  = [ Ok Qnil; Ok (RString secret_bytes); Ok Qnil;
      Raise (LibvirtError "virSecretGetValue" 7%nat
               (Some (mk_virError 66 "Secret not found")));
      Ok (RString (list_byte_of_string "pool/vol1"));
      Ok Qnil; Ok Qnil; Raise (ArgumentError "Secret has been freed") ].
Proof. vm_compute. reflexivity. Qed.

(** [get_value] when Ruby cannot allocate the String: Ruby's exception
    reaches the caller, the buffer has been freed, the handle is as it
    was. *)
Example get_value_when_ruby_cannot_allocate :
  let '(r, w') := libvirt_secret_get_value [] RefLib.s0 RefLib.w_set_nomem in
  r = Raise NoMemoryError
  /\ events w' = (events RefLib.w_set
                  ++ [ELib (CallGetValue 1%nat 0); EStrNew 0%nat 10;
                      ECFree 0%nat])%list
  /\ cheap w' = ∅
  /\ objects w' = objects RefLib.w_set.
Proof. vm_compute. repeat split; reflexivity. Qed.

(** What the init function defines against a libvirt that lacks two of
    the enumerators. *)
Example init_against_old_libvirt :
  ruby_libvirt_secret_init (extconf libvirt_h_old) libvirt_h_old
  = Some ([ DefClass "Secret"; DefAttr "connection";
            DefConst "USAGE_TYPE_VOLUME" (RInteger 1);
            DefConst "USAGE_TYPE_CEPH" (RInteger 2) ] ++ secret_methods)%list
  /\ (forall defs,
        ruby_libvirt_secret_init (extconf libvirt_h_old) libvirt_h_old
        = Some defs ->
        method_get defs "get_value" = Some (F_get_value, -1)
        /\ method_get defs "free" = Some (F_free, 0)).
Proof.
  split; [reflexivity|]. intros defs [= <-]. split; reflexivity.
Qed.

(** Read as a C string, the memory of a Ruby String stops at its first
    zero byte; read with its length, it does not. *)
Example c_string_stops_at_zero :
  c_string (RSTRING_PTR secret_bytes) = list_byte_of_string "s3cr3t"
  /\ take (RSTRING_LEN secret_bytes) (RSTRING_PTR secret_bytes) = secret_bytes.
Proof. split; reflexivity. Qed.

(* ===================================================================== *)
(** ** The theorems at concrete inputs of the reference library *)
(* ===================================================================== *)

(** Each theorem above that has hypotheses is applied once, to show that
    they can be met together. *)

Lemma get_value_null_is_not_empty_witness :
  Live RefLib.w_empty RefLib.s0 1%nat 7%nat
  /\ fst (virSecretGetValue 1%nat 0 (lib RefLib.w_empty)) = Some []
  /\ fst (libvirt_secret_get_value [] RefLib.s0 RefLib.w_empty)
     = Ok (RString []).
Proof.
  split; [reflexivity|]. split; [reflexivity|].
  apply (get_value_null_is_not_empty RefLib.w_empty RefLib.s0 1%nat 7%nat
           [] 0 eq_refl eq_refl); reflexivity.
Defined.

Lemma get_value_frees_buffer_once_witness :
  exists a,
    events (snd (libvirt_secret_get_value [] RefLib.s0 RefLib.w_set))
    = (events RefLib.w_set
       ++ [ELib (CallGetValue 1%nat 0); EStrNew a 10; ECFree a])%list.
Proof.
  assert (Hv : fst (virSecretGetValue 1%nat 0 (lib RefLib.w_set))
               = Some secret_bytes) by (vm_compute; reflexivity).
  assert (Hl : Live RefLib.w_set RefLib.s0 1%nat 7%nat)
    by (vm_compute; reflexivity).
  destruct (get_value_frees_buffer_once RefLib.w_set RefLib.s0 1%nat 7%nat
              [] 0 secret_bytes Hl eq_refl Hv)
    as (a & _ & Hev & _).
  exists a. exact Hev.
Defined.

Lemma set_value_payload_witness :
  (exists e, libvirt_secret_set_value [Qnil] RefLib.s0 RefLib.w0
             = (Raise e, RefLib.w0) /\ is_local_error e = true)
  /\ lib_calls (events (snd (libvirt_secret_set_value [RString secret_bytes]
                                RefLib.s0 RefLib.w0)))
     = [CallSetValue 1%nat (secret_bytes ++ [x00]) 10 0]
  /\ lib (snd (libvirt_secret_set_value [RString secret_bytes]
                 RefLib.s0 RefLib.w0))
     = snd (virSecretSetValue 1%nat (secret_bytes ++ [x00]) 10 0
              (lib RefLib.w0)).
Proof.
  destruct (set_value_payload RefLib.w0 RefLib.s0) as [Hmissing Hsent].
  assert (Hl : Live RefLib.w0 RefLib.s0 1%nat 7%nat)
    by (vm_compute; reflexivity).
  destruct (Hsent 1%nat 7%nat [RString secret_bytes] secret_bytes 0 Hl
              eq_refl) as (Hcalls & _ & Hlib & _).
  split; [apply Hmissing; reflexivity|].
  split; [exact Hcalls | exact Hlib].
Defined.

Lemma set_value_then_get_value_witness :
  fst (libvirt_secret_get_value [] RefLib.s0 RefLib.w_set)
  = Ok (RString secret_bytes).
Proof.
  apply (set_value_then_get_value RefLib.w0 RefLib.w_set RefLib.s0
           1%nat 7%nat secret_bytes reflib_stores_values);
    reflexivity.
Defined.

(** C8 as stated does not hold of the binding: [set_value(nil)] on a
    Live handle fails with a [TypeError] raised by [StringValue]. *)
Lemma nil_payload_is_a_type_error :
  fst (libvirt_secret_set_value [Qnil] RefLib.s0 RefLib.w0)
  = Raise (TypeError "no implicit conversion into String")
  /\ ~ every_failure_is_remote RefLib.State.
Proof.
  split; [reflexivity|]. intros Hall.
  destruct (Hall F_set_value [Qnil] RefLib.s0 RefLib.w0 1%nat 7%nat
              (TypeError "no implicit conversion into String"))
    as (func & err & Habs); [vm_compute; reflexivity | reflexivity |].
  discriminate.
Qed.

Lemma failures_of_a_live_handle_witness :
  LibvirtError "virSecretGetValue" 7%nat
    (Some (mk_virError 66 "secret does not have a value set"))
  = LibvirtError "virSecretGetValue" 7%nat
      (virConnGetLastError 7%nat
         (lib_after (CallGetValue 1%nat 0) (lib RefLib.w0))).
Proof.
  assert (Hl : Live RefLib.w0 RefLib.s0 1%nat 7%nat)
    by (vm_compute; reflexivity).
  assert (He : fst (cfunc_body F_get_value [] RefLib.s0 RefLib.w0)
               = Raise (LibvirtError "virSecretGetValue" 7%nat
                          (Some (mk_virError 66
                                   "secret does not have a value set"))))
    by (vm_compute; reflexivity).
  exact (failures_of_a_live_handle RefLib.w0 RefLib.s0 1%nat 7%nat
           F_get_value [] _ Hl He).
Defined.

Lemma failed_call_leaves_state_witness :
  objects (snd (cfunc_body F_get_value [] RefLib.s0 RefLib.w0))
  = objects RefLib.w0.
Proof.
  assert (He : fst (cfunc_body F_get_value [] RefLib.s0 RefLib.w0)
               = Raise (LibvirtError "virSecretGetValue" 7%nat
                          (Some (mk_virError 66
                                   "secret does not have a value set"))))
    by (vm_compute; reflexivity).
  destruct (failed_call_leaves_state RefLib.w0 F_get_value [] RefLib.s0)
    as (evs & _ & _ & _ & Hst).
  exact (proj1 (Hst _ He)).
Defined.

Lemma free_is_idempotent_and_local_witness :
  libvirt_secret_free RefLib.s0
    (snd (libvirt_secret_free RefLib.s0 RefLib.w0))
  = (Ok Qnil, snd (libvirt_secret_free RefLib.s0 RefLib.w0)).
Proof.
  assert (Hf : libvirt_secret_free RefLib.s0 RefLib.w0
               = (Ok Qnil, snd (libvirt_secret_free RefLib.s0 RefLib.w0)))
    by (vm_compute; reflexivity).
  exact (proj1 (free_is_idempotent_and_local RefLib.w0 RefLib.s0) _ Hf).
Defined.

Lemma read_only_methods_change_nothing_witness :
  RefLib.view (lib (snd (cfunc_body F_get_value [] RefLib.s0 RefLib.w_set)))
  = RefLib.view (lib RefLib.w_set).
Proof.
  apply (read_only_methods_change_nothing RefLib.view RefLib.w_set
           F_get_value [] RefLib.s0 reflib_getters_read_only eq_refl).
Defined.

Lemma usage_type_constants_mirror_libvirt_witness :
  exists defs,
    ruby_libvirt_secret_init (extconf libvirt_h_old) libvirt_h_old = Some defs
    /\ const_get defs "USAGE_TYPE_VOLUME" = Some (RInteger 1)
    /\ const_get defs "USAGE_TYPE_CEPH" = Some (RInteger 2)
    /\ const_get defs "USAGE_TYPE_ISCSI" = None
    /\ const_get defs "USAGE_TYPE_NONE" = None.
Proof.
  destruct (usage_type_constants_mirror_libvirt libvirt_h_old)
    as (defs & Hinit & Hconst & _); [reflexivity|].
  exists defs. split; [exact Hinit|].
  repeat split.
  - apply (Hconst _ (Some 1)). cbn. tauto.
  - apply (Hconst _ (Some 2)). cbn. tauto.
  - apply (Hconst _ None). cbn. tauto.
  - apply (Hconst _ None). cbn. tauto.
Defined.

(* ===================================================================== *)
(** ** Any sequence of calls on a handle *)
(* ===================================================================== *)

Section Sequences.
Context {Lib : Type} {L : Libvirt Lib}.

Lemma lib_call_of_ptr (f : CFunc) argv p call :
  lib_call_of f argv p = Some call -> call_ptr call = p.
Proof.
  destruct f; intros Hc;
    try (injection Hc as <-; reflexivity).
  - now destruct (lib_call_of_xml _ _ _ Hc) as [fl ->].
  - now destruct (set_value_args (Lib := Lib) _ _ _ Hc)
      as (v & flv & fl & _ & _ & ->).
  - now destruct (lib_call_of_get_value _ _ _ Hc) as [fl ->].
Qed.

Lemma lib_calls_app (evs1 evs2 : list Event) :
  lib_calls (evs1 ++ evs2) = (lib_calls evs1 ++ lib_calls evs2)%list.
Proof. unfold lib_calls. apply omap_app. Qed.

(** One call, whatever the receiver and the arguments: native memory and
    Ruby's allocator state are as before and there is no fault; the calls
    made into libvirt are about the wrapped pointer; the handle is left
    Live or Released; no other object is touched. *)
Lemma cfunc_step (w : World Lib) f argv s :
  cheap (snd (cfunc_body f argv s w)) = cheap w
  /\ ruby_nomem (snd (cfunc_body f argv s w)) = ruby_nomem w
  /\ fst (cfunc_body f argv s w) <> Crash
  /\ match handle_of w s with
     | Some (mk_RSecret (Some p) c) =>
         exists evs,
           events (snd (cfunc_body f argv s w)) = (events w ++ evs)%list
           /\ Forall (fun call => call_ptr call = p) (lib_calls evs)
           /\ (Live (snd (cfunc_body f argv s w)) s p c
               \/ Released (snd (cfunc_body f argv s w)) s c)
           /\ forall id, s <> RData id ->
                objects (snd (cfunc_body f argv s w)) !! id = objects w !! id
     | _ => snd (cfunc_body f argv s w) = w
     end.
Proof.
  destruct (handle_cases w s) as [Hn | [[c Hr] | (p & c & Hl)]].
  - destruct (cfunc_not_secret w s f argv Hn) as (e & -> & _).
    rewrite Hn. cbn [fst snd].
    split; [reflexivity|]. split; [reflexivity|]. now split.
  - pose proof Hr as Hr'. unfold Released in Hr'. rewrite Hr'.
    destruct (decide (f = F_free)) as [-> | Hf].
    + cbn [cfunc_body]. rewrite (free_released _ _ _ Hr). cbn [fst snd].
      split; [reflexivity|]. split; [reflexivity|]. now split.
    + destruct (cfunc_released w s c f argv Hr Hf) as (e & -> & _).
      cbn [fst snd].
      split; [reflexivity|]. split; [reflexivity|]. now split.
  - pose proof Hl as Hl'. unfold Live in Hl'. rewrite Hl'.
    destruct (lib_call_of f argv p) as [call|] eqn:Hc.
    + destruct (cfunc_dispatched w s p c f argv call Hl Hc)
        as (r & w' & evs & -> & _ & Hev & Hcalls & Hheap & Hmem & Hres).
      cbn [fst snd]. split; [exact Hheap|]. split; [exact Hmem|].
      assert (Hr : r <> Crash
                   /\ (Live w' s p c \/ Released w' s c)
                   /\ forall id, s <> RData id ->
                        objects w' !! id = objects w !! id).
      { destruct (lib_fails call (lib w)).
        - destruct Hres as (-> & Hobj & _).
          split; [discriminate|]. split; [|now rewrite Hobj].
          left. now apply (live_same_objects w).
        - destruct Hres as [Hfree Hother].
          destruct (decide (f = F_free)) as [-> | Hf].
          + destruct (Hfree eq_refl) as (-> & Hrel & Hframe).
            split; [discriminate|]. split; [now right | exact Hframe].
          + destruct (Hother Hf) as (Hobj & Hr).
            split; [|split; [|now rewrite Hobj]].
            * destruct Hr as [Hok | (-> & _)]; [intros ->|]; discriminate.
            * left. now apply (live_same_objects w). }
      split; [apply Hr|]. exists (ELib call :: evs).
      split; [exact Hev|]. split; [|apply Hr].
      change (lib_calls (ELib call :: evs)) with (call :: lib_calls evs).
      rewrite Hcalls. constructor; [|constructor].
      exact (lib_call_of_ptr f argv p call Hc).
    + destruct (cfunc_rejected w s p c f argv Hl Hc) as (e & -> & _).
      cbn [fst snd].
      split; [reflexivity|]. split; [reflexivity|]. split; [discriminate|].
      exists []. rewrite app_nil_r.
      split; [reflexivity|]. split; [constructor|]. split; [now left | auto].
Qed.

(** X1.  Whatever methods are called on whatever receiver, with whatever
    arguments and outcomes, the native memory afterwards is the native
    memory before (every buffer libvirt handed over has been freed) and
    no call ends in a fault. *)
Theorem calls_never_leak_or_fault (calls : list (CFunc * list VALUE)) :
  forall (w : World Lib) s,
    cheap (snd (run_calls calls s w)) = cheap w
    /\ Forall (fun r => r <> Crash) (fst (run_calls calls s w)).
Proof.
  induction calls as [|[f argv] calls IH]; intros w s.
  - split; [reflexivity | constructor].
  - cbn [run_calls].
    destruct (cfunc_step w f argv s) as (Hheap & _ & Hok & _).
    destruct (cfunc_body f argv s w) as [r w']. cbn [fst snd] in Hheap, Hok.
    destruct (IH w' s) as [Hheap' Hok'].
    destruct (run_calls calls s w') as [rs w'']. cbn [fst snd] in *.
    split; [congruence | now constructor].
Qed.

(** X2.  Through any sequence of calls on a Live handle, every call made
    into libvirt is about the pointer the handle wraps, and the handle
    ends Live with that pointer or Released. *)
Theorem calls_pass_only_the_wrapped_pointer
    (calls : list (CFunc * list VALUE)) :
  forall (w : World Lib) s p c,
    Live w s p c ->
    exists evs,
      events (snd (run_calls calls s w)) = (events w ++ evs)%list
      /\ Forall (fun call => call_ptr call = p) (lib_calls evs)
      /\ (Live (snd (run_calls calls s w)) s p c
          \/ Released (snd (run_calls calls s w)) s c).
Proof.
  assert (Hrel : forall calls (w : World Lib) s c,
            Released w s c -> snd (run_calls calls s w) = w).
  { clear calls. induction calls as [|[f argv] calls IH]; intros w s c Hr;
      [reflexivity|]. cbn [run_calls].
    destruct (cfunc_step w f argv s) as (_ & _ & _ & Hst).
    unfold Released in Hr. rewrite Hr in Hst.
    destruct (cfunc_body f argv s w) as [r w']. cbn [snd] in Hst. subst w'.
    specialize (IH w s c Hr).
    now destruct (run_calls calls s w) as [rs w'']. }
  induction calls as [|[f argv] calls IH]; intros w s p c Hl.
  - exists []. cbn. rewrite app_nil_r.
    split; [reflexivity|]. split; [constructor | now left].
  - cbn [run_calls].
    destruct (cfunc_step w f argv s) as (_ & _ & _ & Hst).
    pose proof Hl as Hl'. unfold Live in Hl'. rewrite Hl' in Hst.
    destruct Hst as (evs & Hev & Hptr & Hstate & _).
    destruct (cfunc_body f argv s w) as [r w']. cbn [snd] in Hev, Hstate.
    destruct Hstate as [Hlive | Hreleased].
    + destruct (IH w' s p c Hlive) as (evs' & Hev' & Hptr' & Hstate').
      destruct (run_calls calls s w') as [rs w'']. cbn [snd] in *.
      exists (evs ++ evs')%list. rewrite Hev', Hev, app_assoc.
      split; [reflexivity|]. split; [|exact Hstate'].
      rewrite lib_calls_app. now apply Forall_app.
    + pose proof (Hrel calls w' s c Hreleased) as Hsame.
      destruct (run_calls calls s w') as [rs w'']. cbn [snd] in *. subst w''.
      exists evs. auto.
Qed.

(** X3.  Once [free] has returned on a handle, nothing is dispatched
    through it any more: any further sequence of calls leaves the state
    as it is ([virSecretFree] is not called a second time, the freed
    pointer is never passed to libvirt again), [free] returning [nil] and
    every other method failing by the binding's own check. *)
Theorem after_free_nothing_is_dispatched (w w1 : World Lib) s
    (calls : list (CFunc * list VALUE)) :
  libvirt_secret_free s w = (Ok Qnil, w1) ->
  snd (run_calls calls s w1) = w1
  /\ Forall2 refused_or_nil calls (fst (run_calls calls s w1)).
Proof.
  intros Hfree.
  assert (Hr : exists c, Released w1 s c).
  { destruct (handle_cases w s) as [Hn | [[c Hr] | (p & c & Hl)]].
    - destruct (cfunc_not_secret w s F_free [] Hn) as (e & He & _).
      cbn [cfunc_body] in He. congruence.
    - rewrite (free_released _ _ _ Hr) in Hfree. injection Hfree as <-.
      now exists c.
    - destruct s; try discriminate. rewrite (free_run _ _ _ _ Hl) in Hfree.
      destruct (virSecretFree p (lib w)) as [r l'].
      destruct (r <? 0); [discriminate|]. injection Hfree as <-.
      exists c. unfold Released, handle_of. cbn. apply lookup_insert_eq. }
  destruct Hr as [c Hr]. clear Hfree w.
  induction calls as [|[f argv] calls IH].
  - split; [reflexivity | constructor].
  - cbn [run_calls].
    assert (Hone : cfunc_body f argv s w1
                   = (fst (cfunc_body f argv s w1), w1)
                   /\ refused_or_nil (f, argv) (fst (cfunc_body f argv s w1))).
    { destruct (decide (f = F_free)) as [-> | Hf].
      - cbn [cfunc_body]. rewrite (free_released _ _ _ Hr).
        split; reflexivity.
      - destruct (cfunc_released w1 s c f argv Hr Hf) as (e & -> & He).
        split; [reflexivity|]. unfold refused_or_nil. cbn [fst].
        destruct f; try congruence; now exists e. }
    destruct Hone as [-> Hres].
    destruct (run_calls calls s w1) as [rs w'']. cbn [fst snd] in *.
    destruct IH as [-> Hall]. split; [reflexivity | now constructor].
Qed.

(** X4.  Through any sequence of calls on any receiver, no Ruby object of
    the class disappears, the connection an object is bound to never
    changes, its pointer is only ever cleared (never replaced), and an
    object other than the receiver is not touched at all. *)
Theorem calls_keep_objects (calls : list (CFunc * list VALUE)) :
  forall (w : World Lib) s id o,
    objects w !! id = Some o ->
    exists o',
      objects (snd (run_calls calls s w)) !! id = Some o'
      /\ iv_connection o' = iv_connection o
      /\ (DATA_PTR o' = DATA_PTR o \/ DATA_PTR o' = None)
      /\ (s <> RData id -> o' = o).
Proof.
  induction calls as [|[f argv] calls IH]; intros w s id o Ho.
  - exists o. auto.
  - cbn [run_calls].
    assert (Hone : exists o1,
              objects (snd (cfunc_body f argv s w)) !! id = Some o1
              /\ iv_connection o1 = iv_connection o
              /\ (DATA_PTR o1 = DATA_PTR o \/ DATA_PTR o1 = None)
              /\ (s <> RData id -> o1 = o)).
    { destruct (cfunc_step w f argv s) as (_ & _ & _ & Hst).
      destruct (handle_of w s) as [[[p|] c]|] eqn:Hh;
        try (rewrite Hst; exists o; now auto).
      destruct Hst as (evs & _ & _ & Hstate & Hframe).
      assert (Hdec : s = RData id \/ s <> RData id).
      { destruct s as [| | |n]; try (right; discriminate).
        destruct (decide (n = id)) as [-> | Hn]; [now left|].
        right. congruence. }
      destruct Hdec as [-> | Hne].
      - cbn [handle_of] in Hh. rewrite Ho in Hh. injection Hh as ->.
        unfold Live, Released, handle_of in Hstate.
        destruct Hstate as [H | H]; eexists; (split; [exact H|]); cbn;
          repeat split; auto; congruence.
      - exists o. rewrite (Hframe id Hne). auto. }
    destruct Hone as (o1 & Ho1 & Hc1 & Hp1 & Hf1).
    destruct (cfunc_body f argv s w) as [r w']. cbn [snd] in Ho1.
    destruct (IH w' s id o1 Ho1) as (o' & Ho' & Hc' & Hp' & Hf').
    destruct (run_calls calls s w') as [rs w'']. cbn [snd] in *.
    exists o'. split; [exact Ho'|]. split; [congruence|].
    split; [|intros Hne; rewrite (Hf' Hne); auto].
    destruct Hp' as [-> | ->]; auto.
Qed.

End Sequences.

(* ===================================================================== *)
(** ** After [undefine] *)
(* ===================================================================== *)

Section Undefined.
Context {Lib : Type} {L : Libvirt Lib}.
Variable gone : Lib -> virSecretPtr -> Prop.
Hypothesis Hgone : fails_once_undefined gone.

Lemma lib_call_of_not_free (f : CFunc) argv p call :
  f <> F_free -> lib_call_of f argv p = Some call ->
  call <> CallFree (call_ptr call).
Proof.
  intros Hf Hc. destruct f; try congruence;
    try (injection Hc as <-; discriminate).
  - now destruct (lib_call_of_xml _ _ _ Hc) as [fl ->].
  - now destruct (set_value_args (Lib := Lib) _ _ _ Hc)
      as (v & flv & fl & _ & _ & ->).
  - now destruct (lib_call_of_get_value _ _ _ Hc) as [fl ->].
Qed.

(** A call on a Live handle leaves a removed secret removed. *)
Lemma step_keeps_gone (w : World Lib) s p c f argv :
  Live w s p c -> gone (lib w) p ->
  gone (lib (snd (cfunc_body f argv s w))) p.
Proof.
  intros Hl Hg. destruct (lib_call_of f argv p) as [call|] eqn:Hc.
  - destruct (cfunc_dispatched w s p c f argv call Hl Hc)
      as (r & w' & evs & -> & Hlib & _).
    cbn [snd]. rewrite Hlib. destruct Hgone as (_ & Hkeep & _).
    now apply Hkeep.
  - now destruct (cfunc_rejected w s p c f argv Hl Hc) as (e & -> & _).
Qed.

(** On a Live handle whose secret was removed, a method other than
    [free] does not return, and fails with [RemoteError] when its
    arguments are well formed. *)
Lemma step_fails_when_gone (w : World Lib) s p c f argv :
  Live w s p c -> gone (lib w) p -> f <> F_free ->
  is_Ok (fst (cfunc_body f argv s w)) = false
  /\ (lib_call_of f argv p <> None ->
      is_RemoteError (fst (cfunc_body f argv s w)) = true).
Proof.
  intros Hl Hg Hf.
  pose proof (remote_error_iff_lib_fails w s p c f argv Hl) as Hre.
  destruct (lib_call_of f argv p) as [call|] eqn:Hc.
  - assert (Hfail : lib_fails call (lib w) = true).
    { destruct Hgone as (_ & _ & Hfails). apply Hfails.
      - now rewrite (lib_call_of_ptr (Lib := Lib) f argv p call Hc).
      - exact (lib_call_of_not_free f argv p call Hf Hc). }
    rewrite Hfail in Hre. split; [|now intros _].
    now destruct (fst (cfunc_body f argv s w)) as [|[]|].
  - destruct (cfunc_rejected w s p c f argv Hl Hc) as (e & -> & _).
    split; [reflexivity | congruence].
Qed.

Lemma calls_fail_when_gone (calls : list (CFunc * list VALUE)) :
  forall (w : World Lib) s p c,
    Live w s p c -> gone (lib w) p -> no_free calls ->
    Forall (fun r => is_Ok r = false) (fst (run_calls calls s w))
    /\ Live (snd (run_calls calls s w)) s p c
    /\ gone (lib (snd (run_calls calls s w))) p.
Proof.
  induction calls as [|[f argv] calls IH]; intros w s p c Hl Hg Hnf.
  - split; [constructor | now split].
  - inversion Hnf as [|? ? Hf Hrest]; subst. cbn [fst] in Hf.
    cbn [run_calls].
    pose proof (step_fails_when_gone w s p c f argv Hl Hg Hf) as [Hno _].
    pose proof (step_keeps_gone w s p c f argv Hl Hg) as Hg'.
    pose proof (cfunc_keeps_live w s p c f argv Hf Hl) as Hl'.
    destruct (cfunc_body f argv s w) as [r w']. cbn [fst snd] in *.
    destruct (IH w' s p c Hl' Hg' Hrest) as (Hall & Hl'' & Hg'').
    destruct (run_calls calls s w') as [rs w'']. cbn [fst snd] in *.
    split; [now constructor | now split].
Qed.


End Undefined.

(* ===================================================================== *)
(** ** Flags, arities and constants *)
(* ===================================================================== *)

Section Further_statements.
Context {Lib : Type} {L : Libvirt Lib}.

(** A well-formed call on a Live handle adds exactly its call to the
    calls made into libvirt. *)
Lemma dispatched_call_logged (w : World Lib) s p c f argv call :
  Live w s p c -> lib_call_of f argv p = Some call ->
  lib_calls (events (snd (cfunc_body f argv s w)))
  = (lib_calls (events w) ++ [call])%list.
Proof.
  intros Hl Hc.
  destruct (cfunc_dispatched w s p c f argv call Hl Hc)
    as (r & w' & evs & -> & _ & Hev & Hcalls & _).
  cbn [snd]. rewrite Hev, lib_calls_app.
  change (lib_calls (ELib call :: evs)) with (call :: lib_calls evs).
  now rewrite Hcalls.
Qed.

Lemma flags_value_in_range (n : Z) :
  0 <= n < 2 ^ 32 -> flags_value (RInteger n) = Some n.
Proof.
  intros Hn. cbn [flags_value].
  assert (H1 : (- 2 ^ 31 <=? n) = true) by (apply Z.leb_le; lia).
  assert (H2 : (n <? 2 ^ 32) = true) by (apply Z.ltb_lt; lia).
  rewrite H1, H2. cbn [andb]. now rewrite Z.mod_small.
Qed.

(** A well-formed call on a Live handle leaves libvirt in the state its
    call produced. *)
Lemma dispatched_lib_state (w : World Lib) s p c f argv call :
  Live w s p c -> lib_call_of f argv p = Some call ->
  lib (snd (cfunc_body f argv s w)) = lib_after call (lib w).
Proof.
  intros Hl Hc.
  now destruct (cfunc_dispatched w s p c f argv call Hl Hc)
    as (r & w' & evs & -> & Hlib & _).
Qed.

(** X7.  The [flags] argument reaches libvirt as it was given: on a Live
    handle, [get_xml_desc(n)], [get_value(n)] and [set_value(v, n)] with
    an unsigned 32-bit [n] call the libvirt function once with flags [n]
    and leave libvirt in the state that call produced; and leaving
    [flags] out, or passing [nil], is the same call as passing 0, for any
    receiver and state. *)
Theorem flags_reach_libvirt_unchanged (w : World Lib) s p c n v :
  Live w s p c ->
  0 <= n < 2 ^ 32 ->
  (lib_calls (events (snd (libvirt_secret_get_xml_desc [RInteger n] s w)))
   = (lib_calls (events w) ++ [CallGetXMLDesc p n])%list
   /\ lib (snd (libvirt_secret_get_xml_desc [RInteger n] s w))
      = snd (virSecretGetXMLDesc p n (lib w))
   /\ lib_calls (events (snd (libvirt_secret_get_value [RInteger n] s w)))
      = (lib_calls (events w) ++ [CallGetValue p n])%list
   /\ lib (snd (libvirt_secret_get_value [RInteger n] s w))
      = snd (virSecretGetValue p n (lib w))
   /\ lib_calls (events (snd (libvirt_secret_set_value
                                [RString v; RInteger n] s w)))
      = (lib_calls (events w) ++ [CallSetValue p (v ++ [x00]) (length v) n])%list
   /\ lib (snd (libvirt_secret_set_value [RString v; RInteger n] s w))
      = snd (virSecretSetValue p (v ++ [x00]) (length v) n (lib w)))
  /\ (forall s' (w' : World Lib),
        libvirt_secret_get_xml_desc [] s' w'
        = libvirt_secret_get_xml_desc [RInteger 0] s' w'
        /\ libvirt_secret_get_xml_desc [Qnil] s' w'
           = libvirt_secret_get_xml_desc [RInteger 0] s' w'
        /\ libvirt_secret_get_value [] s' w'
           = libvirt_secret_get_value [RInteger 0] s' w'
        /\ libvirt_secret_get_value [Qnil] s' w'
           = libvirt_secret_get_value [RInteger 0] s' w'
        /\ libvirt_secret_set_value [RString v] s' w'
           = libvirt_secret_set_value [RString v; RInteger 0] s' w'
        /\ libvirt_secret_set_value [RString v; Qnil] s' w'
           = libvirt_secret_set_value [RString v; RInteger 0] s' w').
Proof.
  intros Hl Hn. pose proof (flags_value_in_range n Hn) as Hfl.
  assert (Hx : lib_call_of F_get_xml_desc [RInteger n] p
               = Some (CallGetXMLDesc p n))
    by (cbn [lib_call_of]; now rewrite Hfl).
  assert (Hg : lib_call_of F_get_value [RInteger n] p
               = Some (CallGetValue p n))
    by (cbn [lib_call_of]; now rewrite Hfl).
  assert (Hs : lib_call_of F_set_value [RString v; RInteger n] p
               = Some (CallSetValue p (v ++ [x00]) (length v) n))
    by (cbn [lib_call_of]; now rewrite Hfl).
  split.
  - split; [exact (dispatched_call_logged w s p c F_get_xml_desc _ _ Hl Hx)|].
    split; [exact (dispatched_lib_state w s p c F_get_xml_desc _ _ Hl Hx)|].
    split; [exact (dispatched_call_logged w s p c F_get_value _ _ Hl Hg)|].
    split; [exact (dispatched_lib_state w s p c F_get_value _ _ Hl Hg)|].
    split; [exact (dispatched_call_logged w s p c F_set_value _ _ Hl Hs)|].
    exact (dispatched_lib_state w s p c F_set_value _ _ Hl Hs).
  - intros s' w'.
    assert (H0 : ruby_libvirt_value_to_uint (Lib := Lib) (RInteger 0) = ret 0)
      by (apply value_to_uint_ok; reflexivity).
    assert (Hnil : ruby_libvirt_value_to_uint (Lib := Lib) Qnil = ret 0)
      by reflexivity.
    unfold libvirt_secret_get_xml_desc, libvirt_secret_get_value,
      libvirt_secret_set_value.
    cbn [rb_scan_args_01 rb_scan_args_11]. rewrite !bind_ret_l.
    cbn [StringValue]. rewrite !bind_ret_l. rewrite H0, Hnil.
    repeat split; reflexivity.
Qed.

End Further_statements.

Section Class_and_handles.
Context {Lib : Type} {L : Libvirt Lib}.

(** The constants and the class header defined before the methods do not
    shadow any method. *)
Lemma init_method_get (cfg : extconf_h) (h : libvirt_h) defs name :
  ruby_libvirt_secret_init cfg h = Some defs ->
  HAVE_TYPE_VIRSECRETPTR cfg = true ->
  method_get defs name = method_get secret_methods name.
Proof.
  intros Hinit Hhave. unfold ruby_libvirt_secret_init in Hinit.
  rewrite Hhave in Hinit.
  unfold define_const_if, define_const in Hinit.
  destruct (VIR_SECRET_USAGE_TYPE_VOLUME h); [|discriminate].
  destruct (HAVE_CONST_VIR_SECRET_USAGE_TYPE_CEPH cfg),
           (HAVE_CONST_VIR_SECRET_USAGE_TYPE_ISCSI cfg),
           (HAVE_CONST_VIR_SECRET_USAGE_TYPE_NONE cfg);
    destruct (VIR_SECRET_USAGE_TYPE_CEPH h),
             (VIR_SECRET_USAGE_TYPE_ISCSI h),
             (VIR_SECRET_USAGE_TYPE_NONE h);
    cbn in Hinit; try discriminate; injection Hinit as <-; reflexivity.
Qed.

Lemma scan_args_01_too_many (argv : list VALUE) :
  (length argv <=? 1)%nat = false ->
  rb_scan_args_01 (Lib := Lib) argv
  = rb_raise (ArgumentError "wrong number of arguments").
Proof. destruct argv as [|? [|? ?]]; cbn; congruence. Qed.

Lemma scan_args_11_wrong_number (argv : list VALUE) :
  (1 <=? length argv)%nat && (length argv <=? 2)%nat = false ->
  rb_scan_args_11 (Lib := Lib) argv
  = rb_raise (ArgumentError "wrong number of arguments").
Proof. destruct argv as [|? [|? [|? ?]]]; cbn; congruence. Qed.

(** X8.  Once the class is initialised, a call of any of its eight
    methods with a number of arguments the method does not take is
    refused with [ArgumentError] before anything else happens, for any
    receiver and with the state untouched: by Ruby for the methods
    registered with arity 0, by [rb_scan_args] for [get_xml_desc] and
    [get_value] (at most one argument) and [set_value] (one or two).  With
    a number it takes, the call is the method function on these
    arguments. *)
Theorem wrong_number_of_arguments_is_refused (cfg : extconf_h) (h : libvirt_h)
    defs name f argc (argv : list VALUE) (s : VALUE) :
  ruby_libvirt_secret_init cfg h = Some defs ->
  HAVE_TYPE_VIRSECRETPTR cfg = true ->
  In (DefMethod name f argc) secret_methods ->
  exists m,
    rb_funcall defs name argv s = Some m
    /\ (accepts_argc f (length argv) = true -> m = cfunc_body f argv s)
    /\ (accepts_argc f (length argv) = false ->
        forall w : World Lib,
          m w = (Raise (ArgumentError "wrong number of arguments"), w)).
Proof.
  intros Hinit Hhave Hin. unfold rb_funcall.
  rewrite (init_method_get cfg h defs name Hinit Hhave).
  cbn in Hin.
  destruct Hin as [H|[H|[H|[H|[H|[H|[H|[H|[]]]]]]]]];
    injection H as <- <- <-; cbn [method_get String.eqb Ascii.eqb Bool.eqb];
    eexists; (split; [reflexivity|]); cbn [accepts_argc Z.leb Z.compare andb];
    try (split;
         [ intros Hacc; apply Nat.eqb_eq in Hacc;
           apply length_zero_iff_nil in Hacc; now subst argv
         | intros Hacc w; destruct argv; [discriminate | reflexivity] ]).
  - split; [reflexivity|]. intros Hacc w. cbn [cfunc_body].
    unfold libvirt_secret_get_xml_desc.
    now rewrite (scan_args_01_too_many argv Hacc).
  - split; [reflexivity|]. intros Hacc w. cbn [cfunc_body].
    unfold libvirt_secret_set_value.
    now rewrite (scan_args_11_wrong_number argv Hacc).
  - split; [reflexivity|]. intros Hacc w. cbn [cfunc_body].
    unfold libvirt_secret_get_value.
    now rewrite (scan_args_01_too_many argv Hacc).
Qed.

(** X9.  What [get_usage_type] returns can be compared with the
    constants of the class: when libvirt reports the usage type [v] (a
    non-negative enumerator of the header the extension was compiled
    against), the method returns the very value the constant mirroring
    that enumerator was defined with. *)
Theorem usage_type_is_its_constant (h : libvirt_h) defs (w : World Lib)
    s p c name v :
  ruby_libvirt_secret_init (extconf h) h = Some defs ->
  virSecretPtr_declared h = true ->
  In (name, Some v) (usage_type_constants h) ->
  Live w s p c ->
  fst (virSecretGetUsageType p (lib w)) = v ->
  0 <= v ->
  exists x,
    const_get defs name = Some x
    /\ fst (libvirt_secret_get_usage_type s w) = Ok x.
Proof.
  intros Hinit Hdecl Hin Hl Hv Hpos. exists (INT2NUM v). split.
  - destruct h as [declared volume ceph iscsi none].
    cbn in Hinit, Hdecl, Hin. subst declared.
    destruct volume as [vv|]; [|discriminate].
    destruct ceph as [vc|], iscsi as [vi|], none as [vn|];
      cbn in Hinit; injection Hinit as <-;
      destruct Hin as [H|[H|[H|[H|[]]]]]; try discriminate;
      injection H as <- <-; reflexivity.
  - rewrite (get_usage_type_run _ _ _ _ Hl).
    destruct (virSecretGetUsageType p (lib w)) as [r l']. cbn [fst] in Hv.
    subst r. apply Z.ltb_ge in Hpos. now rewrite Hpos.
Qed.

End Class_and_handles.

(* ===================================================================== *)
(** ** These theorems at concrete inputs of the reference library *)
(* ===================================================================== *)

Lemma calls_pass_only_the_wrapped_pointer_witness :
  exists evs,
    events (snd (run_calls [(F_set_value, [RString secret_bytes]);
                            (F_get_value, []); (F_free, [])]
                           RefLib.s0 RefLib.w0))
    = (events RefLib.w0 ++ evs)%list
    /\ Forall (fun call => call_ptr call = 1%nat) (lib_calls evs).
Proof.
  assert (Hl : Live RefLib.w0 RefLib.s0 1%nat 7%nat)
    by (vm_compute; reflexivity).
  destruct (calls_pass_only_the_wrapped_pointer
              [(F_set_value, [RString secret_bytes]);
               (F_get_value, []); (F_free, [])]
              RefLib.w0 RefLib.s0 1%nat 7%nat Hl)
    as (evs & Hev & Hptr & _).
  exists evs. split; [exact Hev | exact Hptr].
Defined.

Lemma after_free_nothing_is_dispatched_witness :
  snd (run_calls [(F_get_value, []); (F_free, []); (F_undefine, [])]
                 RefLib.s0 (snd (libvirt_secret_free RefLib.s0 RefLib.w0)))
  = snd (libvirt_secret_free RefLib.s0 RefLib.w0).
Proof.
  assert (Hf : libvirt_secret_free RefLib.s0 RefLib.w0
               = (Ok Qnil, snd (libvirt_secret_free RefLib.s0 RefLib.w0)))
    by (vm_compute; reflexivity).
  exact (proj1 (after_free_nothing_is_dispatched RefLib.w0 _ RefLib.s0
                  [(F_get_value, []); (F_free, []); (F_undefine, [])] Hf)).
Defined.

Lemma calls_keep_objects_witness :
  exists o',
    objects (snd (run_calls [(F_undefine, []); (F_free, [])]
                            RefLib.s0 RefLib.w0)) !! 0%nat = Some o'
    /\ iv_connection o' = 7%nat.
Proof.
  assert (Ho : objects RefLib.w0 !! 0%nat
               = Some (mk_RSecret (Some 1%nat) 7%nat))
    by (vm_compute; reflexivity).
  destruct (calls_keep_objects [(F_undefine, []); (F_free, [])]
              RefLib.w0 RefLib.s0 0%nat _ Ho)
    as (o' & Ho' & Hc & _).
  exists o'. split; [exact Ho' | exact Hc].
Defined.

Lemma flags_reach_libvirt_unchanged_witness :
  lib_calls (events (snd (libvirt_secret_get_value [RInteger 5]
                            RefLib.s0 RefLib.w0)))
  = (lib_calls (events RefLib.w0) ++ [CallGetValue 1%nat 5])%list
  /\ lib (snd (libvirt_secret_get_value [RInteger 5] RefLib.s0 RefLib.w0))
     = snd (virSecretGetValue 1%nat 5 (lib RefLib.w0)).
Proof.
  assert (Hl : Live RefLib.w0 RefLib.s0 1%nat 7%nat)
    by (vm_compute; reflexivity).
  assert (Hn : 0 <= 5 < 2 ^ 32) by lia.
  destruct (flags_reach_libvirt_unchanged RefLib.w0 RefLib.s0 1%nat 7%nat
              5 [] Hl Hn) as [(_ & _ & Hcalls & Hlib & _) _].
  split; [exact Hcalls | exact Hlib].
Defined.

Lemma wrong_number_of_arguments_is_refused_witness :
  exists m,
    rb_funcall (Lib := RefLib.State)
      ([DefClass "Secret"; DefAttr "connection";
        DefConst "USAGE_TYPE_VOLUME" (RInteger 1);
        DefConst "USAGE_TYPE_CEPH" (RInteger 2)] ++ secret_methods)%list
      "undefine" [Qnil] RefLib.s0 = Some m
    /\ m RefLib.w0
       = (Raise (ArgumentError "wrong number of arguments"), RefLib.w0).
Proof.
  assert (Hin : In (DefMethod "undefine" F_undefine 0) secret_methods)
    by (cbn; tauto).
  destruct (wrong_number_of_arguments_is_refused (Lib := RefLib.State)
              (extconf libvirt_h_old) libvirt_h_old _ "undefine" F_undefine 0
              [Qnil] RefLib.s0 eq_refl eq_refl Hin)
    as (m & Hm & _ & Hbad).
  exists m. split; [exact Hm | exact (Hbad eq_refl RefLib.w0)].
Defined.

Lemma usage_type_is_its_constant_witness :
  exists x,
    const_get ([DefClass "Secret"; DefAttr "connection";
                DefConst "USAGE_TYPE_VOLUME" (RInteger 1);
                DefConst "USAGE_TYPE_CEPH" (RInteger 2)]
               ++ secret_methods)%list "USAGE_TYPE_VOLUME" = Some x
    /\ fst (libvirt_secret_get_usage_type RefLib.s0 RefLib.w0) = Ok x.
Proof.
  assert (Hl : Live RefLib.w0 RefLib.s0 1%nat 7%nat)
    by (vm_compute; reflexivity).
  assert (Hin : In ("USAGE_TYPE_VOLUME", Some 1)
                   (usage_type_constants libvirt_h_old))
    by (cbn; tauto).
  assert (Hv : fst (virSecretGetUsageType 1%nat (lib RefLib.w0)) = 1)
    by (vm_compute; reflexivity).
  assert (Hpos : 0 <= 1) by lia.
  exact (usage_type_is_its_constant libvirt_h_old _ RefLib.w0 RefLib.s0
           1%nat 7%nat "USAGE_TYPE_VOLUME" 1 eq_refl eq_refl Hin Hl Hv Hpos).
Defined.

(* ===================================================================== *)
(** ** The strict reference library meets what the theorem on undefined
       secrets asks of libvirt *)
(* ===================================================================== *)

(** No call of the reference library gives an object back to a pointer
    or a secret back to the store. *)
Lemma missing_stays_missing (p : virSecretPtr) (st st' : RefLib.State) :
  (RefLib.handles st' !! p = RefLib.handles st !! p
   \/ RefLib.handles st' !! p = None) ->
  (forall k, RefLib.store st !! k = None -> RefLib.store st' !! k = None) ->
  StrictLib.missing p st <> None -> StrictLib.missing p st' <> None.
Proof.
  unfold StrictLib.missing. intros [-> | ->] Hstore; [|discriminate].
  destruct (RefLib.handles st !! p) as [h|]; [|discriminate].
  destruct (RefLib.store st !! RefLib.h_secret h) eqn:Hs; [congruence|].
  now rewrite (Hstore _ Hs).
Qed.

Lemma strict_keeps_missing {R : Type} (failure : R)
    (f : virSecretPtr -> RefLib.State -> R * RefLib.State)
    (q p : virSecretPtr) (st : StrictLib.State) :
  (forall st0, StrictLib.missing q st0 = None ->
     RefLib.handles (snd (f q st0)) = RefLib.handles st0
     /\ forall k, RefLib.store st0 !! k = None ->
                  RefLib.store (snd (f q st0)) !! k = None) ->
  StrictLib.gone st p ->
  StrictLib.gone (snd (StrictLib.strict failure f q st)) p.
Proof.
  intros Hf. unfold StrictLib.gone, StrictLib.strict.
  destruct (StrictLib.missing q (StrictLib.base st)) as [st'|] eqn:Hq.
  - cbn. apply missing_stays_missing.
    + left. unfold StrictLib.missing in Hq.
      destruct (RefLib.handles (StrictLib.base st) !! q) as [h|];
        [|now injection Hq as <-].
      destruct (RefLib.store (StrictLib.base st) !! RefLib.h_secret h);
        [discriminate | now injection Hq as <-].
    + unfold StrictLib.missing in Hq.
      destruct (RefLib.handles (StrictLib.base st) !! q) as [h|];
        [|now injection Hq as <-].
      destruct (RefLib.store (StrictLib.base st) !! RefLib.h_secret h);
        [discriminate | now injection Hq as <-].
  - destruct (Hf _ Hq) as [Hh Hs].
    destruct (f q (StrictLib.base st)) as [r st'] eqn:E. cbn in *.
    apply missing_stays_missing; [left; now rewrite Hh | exact Hs].
Qed.

Lemma strictlib_fails_once_undefined : fails_once_undefined StrictLib.gone.
Proof.
  split; [|split].
  - intros p [st]. cbn. unfold StrictLib.strict, StrictLib.gone. cbn.
    destruct (StrictLib.missing p st) as [st'|] eqn:Hm; cbn; [lia|].
    intros _. unfold StrictLib.missing in Hm. unfold RefLib.Undefine.
    destruct (RefLib.handles st !! p) as [h|] eqn:Hh; [|discriminate].
    destruct (RefLib.store st !! RefLib.h_secret h) eqn:Hs; [|discriminate].
    cbn. unfold StrictLib.missing. cbn. rewrite Hh, lookup_delete_eq.
    discriminate.
  - intros call st p Hg. destruct call as [q|q|q|q fl|q v n fl|q fl|q|q];
      cbn [lib_after virSecretGetUUIDString virSecretGetUsageType
           virSecretGetUsageID virSecretGetXMLDesc virSecretSetValue
           virSecretGetValue virSecretUndefine virSecretFree
           StrictLib.strictlib];
      try (apply strict_keeps_missing; [|exact Hg];
           intros st0 Hm; unfold StrictLib.missing in Hm;
           unfold RefLib.GetUUIDString, RefLib.GetUsageType,
             RefLib.GetUsageID, RefLib.GetXMLDesc, RefLib.SetValue,
             RefLib.GetValue, RefLib.Undefine;
           destruct (RefLib.handles st0 !! q) as [h|]; [|discriminate];
           destruct (RefLib.store st0 !! RefLib.h_secret h) as [d|] eqn:Hs;
             [|discriminate]; cbn).
    + now split.
    + now split.
    + now split.
    + now split.
    + split; [reflexivity|]. intros k Hk.
      rewrite lookup_insert_ne; [exact Hk | congruence].
    + destruct (RefLib.st_value d); now split.
    + split; [reflexivity|]. intros k Hk.
      destruct (decide (RefLib.h_secret h = k)) as [-> | Hne];
        [apply lookup_delete_eq | now rewrite lookup_delete_ne].
    + unfold StrictLib.gone in *. destruct st as [st]. cbn in *.
      unfold RefLib.Free.
      destruct (RefLib.handles st !! q) as [h|] eqn:Hq; cbn; [|exact Hg].
      apply (missing_stays_missing p st); [|auto|exact Hg]. cbn.
      destruct (decide (q = p)) as [-> | Hne];
        [right; apply lookup_delete_eq | left; now apply lookup_delete_ne].
  - intros call st Hg Hnf. unfold StrictLib.gone in Hg.
    destruct call as [q|q|q|q fl|q v n fl|q fl|q|q]; cbn in Hg, Hnf |- *;
      try congruence; unfold StrictLib.strict;
      destruct (StrictLib.missing q (StrictLib.base st));
      try congruence; reflexivity.
Qed.

